(* ===== verification/Prelude.v ===== *)
(** * A verification development of [examples/udp_client/udp_server.py]

    The repository's only Python program is [src/examples/udp_client/udp_server.py],
    a UDP responder used as a test companion for the CC3000 example.  It
    binds a datagram socket to [10.0.0.1:44444], then loops forever: it
    receives at most 256 bytes with [recvfrom], decodes them as UTF-8, prints
    them with the sender's address and port, and when the decoded text is
    exactly ["Hello World from CC3000"] it sends ["Hello CC3000"] back to
    the sender with [sendto].  Any exception is uncaught and kills the process.

    The script is short, but each line calls a part of the Python runtime
    or of the kernel that decides what the program does.  The development
    models these parts, each in its own file:

    - [Prelude] (this file): the shared representation of bytes and str
      (both as [list Z]), the exceptions the script can raise ([PyExc]),
      the error monad [res] that propagates them, the bit-level lemmas the
      codec proofs share, and the hint database [pyudp].
    - [PyStr]: Python [str] values, the [str()] of an [int], and the
      line that [print] writes for its arguments (lines 18-42 print).
    - [Utf8]: [str.encode()] and [bytes.decode()] with their defaults,
      which are UTF-8 and strict errors (lines 13, 16 and 29).  The decoder
      follows CPython's checks and error reasons.
    - [Inet]: IPv4 addresses.  [inet_ntop] formats the sender address that
      [recvfrom] returns as a str (line 27).  The [inet_pton] state machine
      parses the host of a [(host, port)] tuple, with the port range check
      of [getsockaddrarg] (lines 23 and 41).
    - [Socket]: a UDP socket bound in a kernel.  The kernel holds the queue
      of incoming datagrams and the list of sent ones.  [recvfrom]
      truncates to the buffer size.  The class [DatagramSocket] states what
      the server needs from a socket, and the kernel model is an instance.
    - [Server]: the script itself.  Startup (lines 18-24), one loop
      iteration (lines 27-42), runs with fuel, the step relation of the
      process, and the abstract responder the spec describes
      (§4.1 and §8).

    How the parts interact.  [Server] is written against the class
    [Socket.DatagramSocketLaws] (the socket interface and its laws), so its
    theorems hold for any socket that satisfies them.  The kernel model
    [Socket.udp_sock] is an instance, and its laws are proved from [Inet]:
    the [(host, port)] that [recvfrom] reports parses back, in [sendto], to
    the sender.  [Server] decodes with [Utf8] and prints with [PyStr].

    The state of the script is [Server.proc]: the globals [MSG_EXP_BYTES]
    and [MSG_TX_BYTES], the socket, the lines written to stdout, and
    whether the process runs or died of an exception.  Statements run in
    a state-and-exception monad [Server.M], where [recvfrom] may block.
    The loop [while True] is modelled twice.  [Server.serve] runs it with
    fuel; fuel counts passes, and one pass more than there are queued
    datagrams always drains the queue ([serve_drains]).
    [Server.step] is a relation that interleaves passes with deliveries of
    datagrams by the network; [Server.run] is the same runs labelled with
    the datagrams taken from the queue.  The decimal digits of [str(int)]
    use fuel [1 + log2 n], which [PyStr.digits_fuel_enough] shows is enough.

    [print] encodes each line for stdout, as UTF-8 with strict errors
    (the host's UTF-8 locale), and raises [UnicodeEncodeError] when it
    cannot.  The crash causes of C4 show it never does for this script.
    [Server.script] adds line 19's [socket()] failing: the script then
    dies with ["Creating socket..."] printed and no socket.

    The theorems, as claims C1-C17:
    - The whole script (C1, C6, C7):
      - C1: safety from the first line, among any deliveries.  Bound at
        10.0.0.1:44444, the server only ever sends "Hello CC3000" to
        senders of "Hello World from CC3000", at most once per datagram.
      - C6: startup.  C7: startup on a kernel host, with its bind errors.
    - The loop (C2-C5, C8, C9):
      - C2: serving refines the spec's responder, given a route to each
        sender.  Each payload equal to [MSG_EXP_BYTES] gets exactly one
        reply, and the process dies at the first undecodable one.
      - C3, C4: invariants of every run.  The socket stays bound, and the
        replies sent are exactly those owed.  A dead process died of the
        last datagram it received (a [UnicodeDecodeError], or
        [ENETUNREACH] on a reply; never [print]) and never moves again.
      - C5: the 256-byte truncation crash.
      - C8: termination.  One pass more than there are queued datagrams
        is enough fuel for [serve].
      - C9: the lines printed by a pass.
    - The socket (C10): [sendto] to the reported sender reaches it.
    - Addresses (C11): [inet_pton4] accepts exactly what [inet_ntop] writes.
    - The codec (C12-C16): both roundtrips; a decoding error starts at the
      length of the longest prefix that decodes and spans at most three
      bytes; decoded characters are scalar values; encoding fails exactly
      on text with a surrogate, at the first one.
    - [str()] of an int (C17).
    The witnesses run the script on the kernel model, on a host that owns
    10.0.0.1 and has room for eight queued datagrams, with a client at
    10.0.0.2:5000.

    Simplifications of the environment, each a choice of the host model:
    - [Socket.sendto] reports every routing failure as [ENETUNREACH]
      ([EHOSTUNREACH], [EACCES], [EPERM], [EINVAL] and [ENOBUFS] are not
      distinguished) and never blocks on a full send buffer;
    - [Server.print] writes never fail or block ([EPIPE], [ENOSPC] and a
      stalled terminal are not modelled); only encoding can fail;
    - [Socket.bind] decides [EADDRINUSE] by port alone: no per-address
      conflicts, no [SO_REUSEADDR], no [ip_nonlocal_bind];
    - [UnicodeEncodeError] keeps only its start offset, not its end or
      reason (the script never raises it);
    - [Utf8.decode]'s [UnicodeDecodeError] keeps start, end and reason,
      not the object.

    Not modelled:
    - name resolution.  It is a parameter ([Inet.resolver]); the socket
      laws are proved for every resolver, because the hosts the script
      passes are dotted quads ([Inet.getsockaddrarg_ntop]);
    - signals such as Ctrl-C, which the spec counts as external kills;
    - ICMP errors: Linux reports them only on connected UDP sockets (or
      with [IP_RECVERR]), and this socket is neither, so no call of the
      script sees one;
    - the exact memory accounting of the receive buffer: whether a
      datagram fits is a host parameter ([Socket.rcv_room]);
    - the partial write of a line whose encoding fails (CPython writes the
      arguments before the failing one); no line of this script fails;
    - the errno a failing [socket()] reports.  [Server.script] takes it as
      given, since it depends only on the host's limits (EMFILE, ENFILE,
      ENOBUFS);
    - the C client named in the script's header comment, which is not
      in the repository.
    Every statement of the script, lines 9 to 42, is translated by a
    definition of [Server] and the calls it makes.  What is left above
    lies outside the program: the host, the terminal and the client. *)

From stdpp Require Export base list decidable option.
From Stdlib Require Export ZArith Lia.
From Stdlib Require String Ascii.
Export String.StringSyntax.
Delimit Scope string_scope with string.

Declare Scope py_scope.
Delimit Scope py_scope with py.
Open Scope Z_scope.

(** ** Bytes and str

    A Python [bytes] object is a sequence of integers in [0, 256); a
    Python [str] is a sequence of code points, integers in [0, 0x110000).
    Both are written [list Z]; the predicates below state their ranges. *)

Abbreviation bytes := (list Z) (only parsing).
Abbreviation pystr := (list Z) (only parsing).

Definition byte_ok (b : Z) : bool := (0 <=? b) && (b <? 256).
Definition bytes_ok (bs : list Z) : bool := forallb byte_ok bs.

(** ASCII literals of the source, as sequences of their character codes. *)
Fixpoint lit (s : String.string) : list Z :=
  match s with
  | String.EmptyString => []
  | String.String c s' => Z.of_nat (Ascii.nat_of_ascii c) :: lit s'
  end.
Arguments lit s%_string.

(** ** Exceptions

    The exceptions the script can raise, none of which it catches.
    [UnicodeDecodeError] carries the [start] and [end] offsets of the
    offending bytes and the reason CPython reports. *)

Inductive decode_reason :=
  | InvalidStartByte
  | InvalidContinuationByte
  | UnexpectedEndOfData.

Inductive errno :=
  | EADDRNOTAVAIL
  | EADDRINUSE
  | EACCES
  | EINVAL
  | ENETUNREACH
  | EMSGSIZE
  | EAI_NONAME.

Inductive PyExc :=
  | UnicodeDecodeError (start stop : nat) (reason : decode_reason)
  | UnicodeEncodeError (start : nat)
  | OverflowError
  | OSError (e : errno).

#[export] Instance decode_reason_eq_dec : EqDecision decode_reason.
Proof. solve_decision. Defined.
#[export] Instance errno_eq_dec : EqDecision errno.
Proof. solve_decision. Defined.
#[export] Instance PyExc_eq_dec : EqDecision PyExc.
Proof. solve_decision. Defined.

(** ** The error monad

    A computation that may raise returns [inl e]; one that returns
    normally gives [inr v]. *)

Abbreviation res A := (sum PyExc A) (only parsing).

Definition rbind {A B} (c : res A) (k : A -> res B) : res B :=
  match c with
  | inl e => inl e
  | inr a => k a
  end.

Notation "'let*' x := c 'in' k" := (rbind c (fun x => k))
  (at level 10, x name, c at level 100, k at level 200) : py_scope.

Lemma rbind_inr {A B} (a : A) (k : A -> res B) : rbind (inr a) k = k a.
Proof. reflexivity. Qed.

Lemma rbind_inl {A B} (e : PyExc) (k : A -> res B) : rbind (inl e) k = inl e.
Proof. reflexivity. Qed.

Lemma rbind_inr_inv {A B} (c : res A) (k : A -> res B) b :
  rbind c k = inr b -> exists a, c = inr a /\ k a = inr b.
Proof. destruct c; simpl; [discriminate | eauto]. Qed.

(** ** Bits

    The codec assembles and splits code points with shifts, masks and
    disjunctions; these lemmas turn them into arithmetic. *)

Lemma lor_shiftl_low hi lo n : 0 <= n -> 0 <= lo < 2 ^ n ->
  Z.lor (Z.shiftl hi n) lo = hi * 2 ^ n + lo.
Proof.
  intros Hn Hlo. rewrite <- Z.add_nocarry_lor; [by rewrite Z.shiftl_mul_pow2|].
  apply Z.bits_inj_0. intros i. rewrite Z.land_spec.
  destruct (Z.lt_ge_cases i 0). { by rewrite Z.testbit_neg_r. }
  destruct (Z.lt_ge_cases i n) as [Hi|Hi].
  - by rewrite Z.shiftl_spec_low.
  - rewrite <- (Z.mod_small lo (2^n)) by lia. rewrite Z.mod_pow2_bits_high by lia.
    apply andb_false_r.
Qed.

Lemma land_low_mod a n : 0 <= n -> Z.land a (2 ^ n - 1) = a mod 2 ^ n.
Proof. intros Hn. rewrite <- Z.land_ones by lia. by rewrite Z.ones_equiv, Z.sub_1_r. Qed.

Lemma shiftr_div a n : 0 <= n -> Z.shiftr a n = a / 2 ^ n.
Proof. apply Z.shiftr_div_pow2. Qed.

(** ** Booleans of the range checks *)

Lemma byte_ok_spec b : byte_ok b = true <-> 0 <= b < 256.
Proof. unfold byte_ok. rewrite andb_true_iff, Z.leb_le, Z.ltb_lt. lia. Qed.

Lemma bytes_ok_spec bs : bytes_ok bs = true <-> Forall (fun b => 0 <= b < 256) bs.
Proof.
  unfold bytes_ok. rewrite forallb_forall, Forall_forall.
  setoid_rewrite byte_ok_spec. done.
Qed.

Lemma bytes_ok_app a b : bytes_ok (a ++ b) = bytes_ok a && bytes_ok b.
Proof. apply forallb_app. Qed.

Lemma bytes_ok_app_inv a b : bytes_ok (a ++ b) = true -> bytes_ok a = true /\ bytes_ok b = true.
Proof. rewrite bytes_ok_app. apply andb_true_iff. Qed.

Lemma bytes_ok_firstn n l : bytes_ok l = true -> bytes_ok (firstn n l) = true.
Proof. intros H. rewrite <- (firstn_skipn n l) in H. by apply bytes_ok_app_inv in H as [? _]. Qed.

Lemma bytes_ok_skipn n l : bytes_ok l = true -> bytes_ok (skipn n l) = true.
Proof. intros H. rewrite <- (firstn_skipn n l) in H. by apply bytes_ok_app_inv in H as [_ ?]. Qed.

(** [pyudp] closes the range side conditions of the byte-level lemmas;
    [pyudp_rw] runs the error monad on values and splits byte ranges. *)
Create HintDb pyudp discriminated.
Create Rewrite HintDb pyudp_rw.
#[export] Hint Resolve bytes_ok_firstn bytes_ok_skipn : pyudp.
#[export] Hint Rewrite @rbind_inr @rbind_inl bytes_ok_app : pyudp_rw.

(** [bool_to_prop] turns the boolean range checks of the code into the
    propositions [lia] reads. *)
Ltac bool_to_prop :=
  repeat match goal with
  | H : (_ <=? _) = true |- _ => apply Z.leb_le in H
  | H : (_ <=? _) = false |- _ => apply Z.leb_gt in H
  | H : (_ <? _) = true |- _ => apply Z.ltb_lt in H
  | H : (_ <? _) = false |- _ => apply Z.ltb_ge in H
  | H : (_ =? _) = true |- _ => apply Z.eqb_eq in H
  | H : (_ =? _) = false |- _ => apply Z.eqb_neq in H
  | H : Nat.leb _ _ = true |- _ => apply Nat.leb_le in H
  | H : Nat.leb _ _ = false |- _ => apply Nat.leb_gt in H
  | H : Nat.ltb _ _ = true |- _ => apply Nat.ltb_lt in H
  | H : Nat.ltb _ _ = false |- _ => apply Nat.ltb_ge in H
  | H : Nat.eqb _ _ = true |- _ => apply Nat.eqb_eq in H
  | H : Nat.eqb _ _ = false |- _ => apply Nat.eqb_neq in H
  | H : (_ && _) = true |- _ => apply andb_true_iff in H as [? ?]
  | H : (_ && _) = false |- _ => apply andb_false_iff in H as [?|?]
  | H : negb _ = true |- _ => apply negb_true_iff in H
  | H : negb _ = false |- _ => apply negb_false_iff in H
  | H : (_ || _) = false |- _ => apply orb_false_iff in H as [? ?]
  end.

(** [case_if] splits on the first boolean test of the goal and reads it. *)
Ltac case_if :=
  match goal with
  | |- context [if ?b then _ else _] =>
      let E := fresh "E" in destruct b eqn:E; bool_to_prop
  | H : context [if ?b then _ else _] |- _ =>
      let E := fresh "E" in destruct b eqn:E; bool_to_prop
  end.

(** [zlia]: [lia] after naming the quotients and remainders by constants. *)
Ltac zlia := Z.div_mod_to_equations; lia.

Lemma lor_small p v n : 0 <= n -> p mod 2 ^ n = 0 -> 0 <= v < 2 ^ n -> Z.lor p v = p + v.
Proof.
  intros Hn Hp Hv. rewrite (Z.div_mod p (2 ^ n)) by lia. rewrite Hp, !Z.add_0_r.
  rewrite Z.mul_comm, <- Z.shiftl_mul_pow2 by lia.
  by rewrite lor_shiftl_low, Z.shiftl_mul_pow2 by lia.
Qed.

(** ** Lists *)

(** Induction on the length of a list, for functions such as the UTF-8
    decoder that recurse on a suffix several elements down. *)
Lemma list_length_ind {A} (P : list A -> Prop) :
  (forall l, (forall l', length l' < length l -> P l') -> P l)%nat -> forall l, P l.
Proof.
  intros Hstep l. remember (length l) as n eqn:Hn.
  revert l Hn. induction (lt_wf n) as [n _ IH]. intros l ->.
  apply Hstep. intros l' Hl'. by apply (IH (length l')).
Qed.
