(* ===== verification/Utf8.v ===== *)
(** * Utf8: [str.encode()] and [bytes.decode()]

    Lines 13 and 16 of [udp_server.py] call [str.encode()] and line 29
    calls [bytes.decode()], both with their defaults: the UTF-8 codec with
    strict errors.  The encoder and decoder below follow CPython's
    [ucs4lib_utf8_encoder] and the decoding loop of [stringlib/codecs.h]:
    the same branches on the lead byte and the same range checks on the
    second byte.  Code points are assembled with the same shifts, and the
    decoder reports CPython's error offsets and reasons.  The theorems are
    the two roundtrips, that the encoder fails exactly on text with a
    surrogate (at the first one), the ranges of what the decoder returns,
    and where decoding errors start: at the length of the longest prefix
    of the input that decodes. *)

From S2P Require Import Prelude.

Open Scope py_scope.

Module Utf8.

(** ** Code points *)

Definition is_surrogate (c : Z) : bool := (0xD800 <=? c) && (c <=? 0xDFFF).

(** A Unicode scalar value: what strict UTF-8 can encode. *)
Definition scalar_ok (c : Z) : bool :=
  (0 <=? c) && (c <? 0x110000) && negb (is_surrogate c).

(** The code points a Python [str] may hold (surrogates included). *)
Definition codepoint_ok (c : Z) : bool := (0 <=? c) && (c <? 0x110000).

(** ** Encoder *)

Definition encode_char (ch : Z) : option bytes :=
  if ch <? 0x80 then Some [ch]
  else if ch <? 0x0800 then
    Some [Z.lor 0xC0 (Z.shiftr ch 6); Z.lor 0x80 (Z.land ch 0x3F)]
  else if is_surrogate ch then None
  else if ch <? 0x10000 then
    Some [Z.lor 0xE0 (Z.shiftr ch 12);
          Z.lor 0x80 (Z.land (Z.shiftr ch 6) 0x3F);
          Z.lor 0x80 (Z.land ch 0x3F)]
  else
    Some [Z.lor 0xF0 (Z.shiftr ch 18);
          Z.lor 0x80 (Z.land (Z.shiftr ch 12) 0x3F);
          Z.lor 0x80 (Z.land (Z.shiftr ch 6) 0x3F);
          Z.lor 0x80 (Z.land ch 0x3F)].

(** [encode_from i s] encodes [s], whose first character is at index [i]
    of the whole string; a surrogate raises at its index. *)
Fixpoint encode_from (i : nat) (s : pystr) : res bytes :=
  match s with
  | [] => inr []
  | ch :: s' =>
      match encode_char ch with
      | Some b => let* rest := encode_from (S i) s' in inr (b ++ rest)
      | None => inl (UnicodeEncodeError i)
      end
  end.

Definition encode (s : pystr) : res bytes := encode_from 0 s.

(** ** Decoder *)

Definition is_cont (b : Z) : bool := (0x80 <=? b) && (b <=? 0xBF).

(** The check CPython makes on the byte after a 3- or 4-byte lead:
    it rules out overlong forms (after [E0] and [F0]), surrogates (after
    [ED]) and code points above [10FFFF] (after [F4]). *)
Definition second_ok (ch ch2 : Z) : bool :=
  is_cont ch2 &&
  (if ch =? 0xE0 then 0xA0 <=? ch2
   else if ch =? 0xED then ch2 <? 0xA0
   else if ch =? 0xF0 then 0x90 <=? ch2
   else if ch =? 0xF4 then ch2 <? 0x90
   else true).

Definition cp2 (ch ch2 : Z) : Z :=
  Z.shiftl ch 6 + ch2 - (Z.shiftl 0xC0 6 + 0x80).
Definition cp3 (ch ch2 ch3 : Z) : Z :=
  Z.shiftl ch 12 + Z.shiftl ch2 6 + ch3
  - (Z.shiftl 0xE0 12 + Z.shiftl 0x80 6 + 0x80).
Definition cp4 (ch ch2 ch3 ch4 : Z) : Z :=
  Z.shiftl ch 18 + Z.shiftl ch2 12 + Z.shiftl ch3 6 + ch4
  - (Z.shiftl 0xF0 18 + Z.shiftl 0x80 12 + Z.shiftl 0x80 6 + 0x80).

(** Input that ends inside a multi-byte sequence: CPython still checks the
    bytes that are there and reports an invalid continuation byte when
    one is wrong, and the end of data otherwise ([stop] is the length of
    the input). *)
Definition truncated_error (pos : nat) (ch : Z) (rest : bytes) (stop : nat) : PyExc :=
  match rest with
  | ch2 :: rest2 =>
      if negb (second_ok ch ch2) then UnicodeDecodeError pos (pos + 1) InvalidContinuationByte
      else match rest2 with
           | ch3 :: _ =>
               if negb (is_cont ch3) then UnicodeDecodeError pos (pos + 2) InvalidContinuationByte
               else UnicodeDecodeError pos stop UnexpectedEndOfData
           | [] => UnicodeDecodeError pos stop UnexpectedEndOfData
           end
  | [] => UnicodeDecodeError pos stop UnexpectedEndOfData
  end.

Definition consr (c : Z) (r : res pystr) : res pystr :=
  let* s := r in inr (c :: s).

(** [decode_from pos bs] decodes [bs], whose first byte is at offset
    [pos] of the whole input. *)
Fixpoint decode_from (pos : nat) (bs : bytes) : res pystr :=
  match bs with
  | [] => inr []
  | ch :: rest =>
      if ch <? 0x80 then consr ch (decode_from (S pos) rest)
      else if ch <? 0xC2 then inl (UnicodeDecodeError pos (S pos) InvalidStartByte)
      else if ch <? 0xE0 then
        match rest with
        | ch2 :: rest' =>
            if negb (is_cont ch2) then inl (UnicodeDecodeError pos (pos + 1) InvalidContinuationByte)
            else consr (cp2 ch ch2) (decode_from (pos + 2) rest')
        | [] => inl (UnicodeDecodeError pos (S pos) UnexpectedEndOfData)
        end
      else if ch <? 0xF0 then
        match rest with
        | ch2 :: ch3 :: rest' =>
            if negb (second_ok ch ch2) then inl (UnicodeDecodeError pos (pos + 1) InvalidContinuationByte)
            else if negb (is_cont ch3) then inl (UnicodeDecodeError pos (pos + 2) InvalidContinuationByte)
            else consr (cp3 ch ch2 ch3) (decode_from (pos + 3) rest')
        | _ => inl (truncated_error pos ch rest (pos + length bs))
        end
      else if ch <? 0xF5 then
        match rest with
        | ch2 :: ch3 :: ch4 :: rest' =>
            if negb (second_ok ch ch2) then inl (UnicodeDecodeError pos (pos + 1) InvalidContinuationByte)
            else if negb (is_cont ch3) then inl (UnicodeDecodeError pos (pos + 2) InvalidContinuationByte)
            else if negb (is_cont ch4) then inl (UnicodeDecodeError pos (pos + 3) InvalidContinuationByte)
            else consr (cp4 ch ch2 ch3 ch4) (decode_from (pos + 4) rest')
        | _ => inl (truncated_error pos ch rest (pos + length bs))
        end
      else inl (UnicodeDecodeError pos (S pos) InvalidStartByte)
  end.

Definition decode (bs : bytes) : res pystr := decode_from 0 bs.

(** ** Arithmetic of the code units

    The shifts and masks of the encoder are the digits of the code point
    in base 64, and the shifts of [cp2]..[cp4] rebuild it from them. *)

Lemma land_3f x : Z.land x 0x3F = x mod 64.
Proof. apply (land_low_mod x 6). lia. Qed.

Lemma enc_cont x : Z.lor 0x80 (Z.land x 0x3F) = 0x80 + x mod 64.
Proof. rewrite land_3f. apply (lor_small _ _ 6); [lia|done|]. change (2^6) with 64. zlia. Qed.

Lemma enc_lead (p c n k : Z) : 0 <= k -> 0 <= c -> p mod 2 ^ n = 0 -> 0 <= n ->
  c < 2 ^ (k + n) -> Z.lor p (Z.shiftr c k) = p + c / 2 ^ k.
Proof.
  intros Hk Hc Hp Hn Hlt. rewrite shiftr_div by lia. apply (lor_small _ _ n); [lia|done|].
  split; [apply Z.div_pos; lia|]. apply Z.div_lt_upper_bound; [lia|].
  by rewrite <- Z.pow_add_r by lia.
Qed.

Lemma enc_lead2 c : 0 <= c < 2048 -> Z.lor 0xC0 (Z.shiftr c 6) = 0xC0 + c / 64.
Proof. intros. by rewrite (enc_lead _ _ 5 6) by (try reflexivity; simpl; lia). Qed.
Lemma enc_lead3 c : 0 <= c < 65536 -> Z.lor 0xE0 (Z.shiftr c 12) = 0xE0 + c / 4096.
Proof. intros. by rewrite (enc_lead _ _ 4 12) by (try reflexivity; simpl; lia). Qed.
Lemma enc_lead4 c : 0 <= c < 2097152 -> Z.lor 0xF0 (Z.shiftr c 18) = 0xF0 + c / 262144.
Proof. intros. by rewrite (enc_lead _ _ 3 18) by (try reflexivity; simpl; lia). Qed.

Lemma scalar_ok_range c : scalar_ok c = true <-> 0 <= c < 0x110000 /\ ~ (0xD800 <= c <= 0xDFFF).
Proof.
  unfold scalar_ok, is_surrogate. split; intros H; [bool_to_prop; lia|].
  destruct (0 <=? c) eqn:?, (c <? 0x110000) eqn:?, (0xD800 <=? c) eqn:?, (c <=? 0xDFFF) eqn:?;
    bool_to_prop; simpl; lia.
Qed.

(** The bytes of a scalar value, digit by digit. *)
Lemma encode_char_arith c : scalar_ok c = true ->
  encode_char c = Some (
    if c <? 0x80 then [c]
    else if c <? 0x800 then [0xC0 + c / 64; 0x80 + c mod 64]
    else if c <? 0x10000 then [0xE0 + c / 4096; 0x80 + (c / 64) mod 64; 0x80 + c mod 64]
    else [0xF0 + c / 262144; 0x80 + (c / 4096) mod 64; 0x80 + (c / 64) mod 64; 0x80 + c mod 64]).
Proof.
  intros H%scalar_ok_range. unfold encode_char, is_surrogate. rewrite !enc_cont.
  repeat (case_if; try lia).
  all: rewrite ?enc_lead2, ?enc_lead3, ?enc_lead4, ?shiftr_div by lia; reflexivity.
Qed.

Lemma digits2 c : 0 <= c -> c / 64 * 64 + c mod 64 = c.
Proof. intros. zlia. Qed.
Lemma digits3 c : 0 <= c -> c / 4096 * 4096 + (c / 64) mod 64 * 64 + c mod 64 = c.
Proof. intros. zlia. Qed.
Lemma digits4 c : 0 <= c ->
  c / 262144 * 262144 + (c / 4096) mod 64 * 4096 + (c / 64) mod 64 * 64 + c mod 64 = c.
Proof. intros. zlia. Qed.

Ltac utf8_arith :=
  unfold second_ok, is_cont, cp2, cp3, cp4 in *;
  rewrite ?(Z.shiftl_mul_pow2 _ 6), ?(Z.shiftl_mul_pow2 _ 12), ?(Z.shiftl_mul_pow2 _ 18) by lia.

(** One step of the decoder on a well-formed sequence of each length. *)
Ltac dec_branch :=
  cbn [decode_from]; utf8_arith; repeat (case_if; try lia); do 2 f_equal; lia.

Lemma decode_from_2 pos x y rest : 2 <= x < 32 -> 0 <= y < 64 ->
  decode_from pos ((0xC0 + x) :: (0x80 + y) :: rest) =
  consr (x * 64 + y) (decode_from (pos + 2) rest).
Proof. intros. dec_branch. Qed.

Lemma decode_from_3 pos x y z rest : 0 <= x < 16 -> 0 <= y < 64 -> 0 <= z < 64 ->
  scalar_ok (x * 4096 + y * 64 + z) = true -> 0x800 <= x * 4096 + y * 64 + z ->
  decode_from pos ((0xE0 + x) :: (0x80 + y) :: (0x80 + z) :: rest) =
  consr (x * 4096 + y * 64 + z) (decode_from (pos + 3) rest).
Proof. intros ? ? ? ?%scalar_ok_range ?. dec_branch. Qed.

Lemma decode_from_4 pos x y z w rest : 0 <= x < 8 -> 0 <= y < 64 -> 0 <= z < 64 -> 0 <= w < 64 ->
  0x10000 <= x * 262144 + y * 4096 + z * 64 + w < 0x110000 ->
  decode_from pos ((0xF0 + x) :: (0x80 + y) :: (0x80 + z) :: (0x80 + w) :: rest) =
  consr (x * 262144 + y * 4096 + z * 64 + w) (decode_from (pos + 4) rest).
Proof. intros. dec_branch. Qed.

(** Decoding the bytes of a scalar value gives it back and goes on after them. *)
Lemma decode_from_encode_char pos c b rest : scalar_ok c = true -> encode_char c = Some b ->
  decode_from pos (b ++ rest) = consr c (decode_from (pos + length b) rest).
Proof.
  intros Hc Hb. rewrite encode_char_arith in Hb by done. injection Hb as <-.
  pose proof (proj1 (scalar_ok_range c) Hc).
  repeat case_if; simpl app; cbn [length].
  - cbn [decode_from]. case_if; [|lia]. by rewrite Nat.add_1_r.
  - rewrite decode_from_2 by zlia. by rewrite digits2 by lia.
  - rewrite decode_from_3; rewrite ?digits3 by lia; try done; zlia.
  - rewrite decode_from_4; rewrite ?digits4 by lia; try done; zlia.
Qed.

(** ** The decoder's branches read backwards

    Each branch of the decoder that accepts a sequence returns a scalar
    value whose encoding is exactly the bytes the branch consumed. *)

Lemma consr_inr c r s : consr c r = inr s -> exists s', r = inr s' /\ s = c :: s'.
Proof. destruct r; simpl; [discriminate|]. intros [= <-]. eauto. Qed.

Lemma consr_inl c r e : consr c r = inl e -> r = inl e.
Proof. by destruct r. Qed.

Ltac enc_branch :=
  split; [apply scalar_ok_range; lia|];
  rewrite encode_char_arith by (apply scalar_ok_range; lia);
  repeat (case_if; try lia); repeat f_equal; zlia.

Lemma encode_char_ascii c : 0 <= c < 0x80 -> scalar_ok c = true /\ encode_char c = Some [c].
Proof. intros. split; [apply scalar_ok_range; lia|]. unfold encode_char. case_if; [done|lia]. Qed.

Lemma encode_cp2 ch ch2 : 0xC2 <= ch < 0xE0 -> is_cont ch2 = true ->
  scalar_ok (cp2 ch ch2) = true /\ encode_char (cp2 ch ch2) = Some [ch; ch2].
Proof.
  unfold is_cont. intros ? ?. bool_to_prop.
  assert (Hv : cp2 ch ch2 = (ch - 0xC0) * 64 + (ch2 - 0x80)) by (utf8_arith; lia).
  rewrite Hv. enc_branch.
Qed.

Lemma encode_cp3 ch ch2 ch3 : 0xE0 <= ch < 0xF0 -> second_ok ch ch2 = true -> is_cont ch3 = true ->
  scalar_ok (cp3 ch ch2 ch3) = true /\ encode_char (cp3 ch ch2 ch3) = Some [ch; ch2; ch3].
Proof.
  intros ? H2 H3.
  assert (Hv : cp3 ch ch2 ch3 = (ch - 0xE0) * 4096 + (ch2 - 0x80) * 64 + (ch3 - 0x80))
    by (utf8_arith; lia).
  rewrite Hv. utf8_arith. bool_to_prop. repeat (case_if; try lia); enc_branch.
Qed.

Lemma encode_cp4 ch ch2 ch3 ch4 : 0xF0 <= ch < 0xF5 -> second_ok ch ch2 = true ->
  is_cont ch3 = true -> is_cont ch4 = true ->
  scalar_ok (cp4 ch ch2 ch3 ch4) = true /\
  encode_char (cp4 ch ch2 ch3 ch4) = Some [ch; ch2; ch3; ch4].
Proof.
  intros ? H2 H3 H4.
  assert (Hv : cp4 ch ch2 ch3 ch4 =
    (ch - 0xF0) * 262144 + (ch2 - 0x80) * 4096 + (ch3 - 0x80) * 64 + (ch4 - 0x80))
    by (utf8_arith; lia).
  rewrite Hv. utf8_arith. bool_to_prop. repeat (case_if; try lia); enc_branch.
Qed.

(** A successful decoding step: the input starts with the encoding of one
    scalar value and the decoder goes on after it. *)
Lemma decode_from_inr_cons pos ch rest s : 0 <= ch -> decode_from pos (ch :: rest) = inr s ->
  exists c b rest' s', ch :: rest = b ++ rest' /\ (1 <= length b)%nat /\ scalar_ok c = true /\
    encode_char c = Some b /\ s = c :: s' /\ decode_from (pos + length b) rest' = inr s'.
Proof.
  intros Hch H. cbn [decode_from] in H.
  case_if; [|case_if; [discriminate|case_if; [|case_if; [|case_if; [|discriminate]]]]].
  - apply consr_inr in H as (s' & Hs' & ->).
    destruct (encode_char_ascii ch) as [? ?]; [lia|].
    exists ch, [ch], rest, s'. cbn [length app]. rewrite Nat.add_1_r. repeat split; done.
  - destruct rest as [|ch2 rest']; [discriminate|].
    destruct (is_cont ch2) eqn:Hc2; [|discriminate]. simpl in H.
    apply consr_inr in H as (s' & Hs' & ->).
    destruct (encode_cp2 ch ch2) as [? ?]; [lia|done|].
    exists (cp2 ch ch2), [ch; ch2], rest', s'. repeat split; try done. simpl; lia.
  - destruct rest as [|ch2 [|ch3 rest']]; try discriminate.
    destruct (second_ok ch ch2) eqn:Hc2; [|discriminate].
    destruct (is_cont ch3) eqn:Hc3; [|discriminate]. simpl in H.
    apply consr_inr in H as (s' & Hs' & ->).
    destruct (encode_cp3 ch ch2 ch3) as [? ?]; [lia|done|done|].
    exists (cp3 ch ch2 ch3), [ch; ch2; ch3], rest', s'. repeat split; try done. simpl; lia.
  - destruct rest as [|ch2 [|ch3 [|ch4 rest']]]; try discriminate.
    destruct (second_ok ch ch2) eqn:Hc2; [|discriminate].
    destruct (is_cont ch3) eqn:Hc3; [|discriminate].
    destruct (is_cont ch4) eqn:Hc4; [|discriminate]. simpl in H.
    apply consr_inr in H as (s' & Hs' & ->).
    destruct (encode_cp4 ch ch2 ch3 ch4) as [? ?]; [lia|done|done|done|].
    exists (cp4 ch ch2 ch3 ch4), [ch; ch2; ch3; ch4], rest', s'. repeat split; try done. simpl; lia.
Qed.

(** [decode_step] opens a successful decoding of well-formed bytes into
    its first scalar value and the rest. *)
Ltac decode_step Hok Hdec :=
  let Hch := fresh "Hch" in
  pose proof Hok as Hch; cbn in Hch; apply andb_true_iff in Hch as [Hch%byte_ok_spec _];
  apply decode_from_inr_cons in Hdec
    as (?c & ?b & ?rest' & ?s' & ?Heq & ?Hlen & ?Hc & ?Hb & -> & Hdec); [|lia];
  match goal with Heq : _ :: _ = _ ++ _ |- _ =>
    rewrite Heq in Hok; apply bytes_ok_app_inv in Hok as [_ Hok] end.

Lemma encode_char_None c : encode_char c = None <-> is_surrogate c = true.
Proof.
  unfold encode_char, is_surrogate. split; intros H; repeat (case_if; try lia); done.
Qed.

(** Text of scalar values always encodes. *)
Lemma encode_from_scalars i s : forallb scalar_ok s = true -> exists bs, encode_from i s = inr bs.
Proof.
  revert i. induction s as [|c s IH]; intros i Hs; [by exists []|].
  cbn [forallb] in Hs. apply andb_true_iff in Hs as [Hc Hs].
  destruct (IH (S i) Hs) as [bs Hbs]. cbn [encode_from].
  destruct (encode_char c) as [b|] eqn:Hb; [rewrite Hbs; by eexists|].
  apply encode_char_None in Hb. unfold scalar_ok in Hc. by rewrite Hb, andb_false_r in Hc.
Qed.

Lemma encode_char_scalar c b : codepoint_ok c = true -> encode_char c = Some b -> scalar_ok c = true.
Proof.
  unfold codepoint_ok. intros Hc Hb. apply scalar_ok_range. bool_to_prop. split; [lia|].
  intros Hs. unfold encode_char, is_surrogate in Hb. repeat (case_if; try lia). discriminate.
Qed.

(** ** Roundtrips *)

Lemma decode_encode_from i pos s bs : forallb codepoint_ok s = true ->
  encode_from i s = inr bs -> decode_from pos bs = inr s.
Proof.
  revert i pos bs. induction s as [|c s IH]; intros i pos bs Hs Henc; simpl in *.
  - by injection Henc as <-.
  - apply andb_true_iff in Hs as [Hc Hs].
    destruct (encode_char c) as [b|] eqn:Hb; [|discriminate].
    apply rbind_inr_inv in Henc as (rest & Hrest & [= <-]).
    rewrite (decode_from_encode_char _ c b) by eauto using encode_char_scalar.
    by erewrite IH.
Qed.

Lemma encode_decode_from pos i bs s : bytes_ok bs = true ->
  decode_from pos bs = inr s -> encode_from i s = inr bs.
Proof.
  revert pos i s. induction bs as [bs IH] using list_length_ind. intros pos i s Hok Hdec.
  destruct bs as [|ch rest]; [by injection Hdec as <-|].
  decode_step Hok Hdec. rewrite Heq. simpl. rewrite Hb.
  erewrite (IH rest'); [done| |done|done]. rewrite Heq, length_app. lia.
Qed.

Lemma decode_from_scalars pos bs s : bytes_ok bs = true ->
  decode_from pos bs = inr s -> forallb scalar_ok s = true.
Proof.
  revert pos s. induction bs as [bs IH] using list_length_ind. intros pos s Hok Hdec.
  destruct bs as [|ch rest]; [by injection Hdec as <-|].
  decode_step Hok Hdec. simpl. rewrite Hc. eapply IH; [|done|done]. rewrite Heq, length_app. lia.
Qed.

Lemma decode_from_app pos bs1 bs2 s1 : bytes_ok bs1 = true -> decode_from pos bs1 = inr s1 ->
  decode_from pos (bs1 ++ bs2) = let* s2 := decode_from (pos + length bs1) bs2 in inr (s1 ++ s2).
Proof.
  revert pos s1. induction bs1 as [bs1 IH] using list_length_ind. intros pos s1 Hok Hdec.
  destruct bs1 as [|ch rest].
  { injection Hdec as <-. simpl. rewrite Nat.add_0_r. by destruct (decode_from pos bs2). }
  decode_step Hok Hdec.
  rewrite Heq, <- app_assoc, (decode_from_encode_char _ c b) by done.
  rewrite (IH rest' ltac:(rewrite Heq, length_app; lia) _ s'), length_app, Nat.add_assoc by done.
  by destruct (decode_from _ bs2).
Qed.

Lemma decode_from_ascii pos bs : Forall (fun b => 0 <= b < 0x80) bs -> decode_from pos bs = inr bs.
Proof.
  revert pos. induction bs as [|ch rest IH]; intros pos Hall; [done|].
  inversion_clear Hall as [|? ? Hch Hall']. cbn [decode_from]. case_if; [|lia]. by rewrite IH.
Qed.

(** ** Errors *)

(** [err_in pos len e]: [e] is a decoding error whose offsets lie in the
    [len] bytes that start at [pos]. *)
Definition err_in (pos len : nat) (e : PyExc) : Prop :=
  exists st sp r, e = UnicodeDecodeError st sp r /\ (pos <= st < sp)%nat /\ (sp <= pos + len)%nat.

Lemma err_in_mono pos len p len' e : (pos <= p)%nat -> (p + len' <= pos + len)%nat ->
  err_in p len' e -> err_in pos len e.
Proof. intros ? ? (st & sp & r & -> & ? & ?). exists st, sp, r. split; [done|lia]. Qed.

Lemma decode_from_error pos bs e : decode_from pos bs = inl e -> err_in pos (length bs) e.
Proof.
  revert pos. induction bs as [bs IH] using list_length_ind. intros pos H.
  destruct bs as [|ch rest]; [discriminate|]. cbn [decode_from] in H.
  repeat (case_if || case_match); simplify_eq/=; repeat (case_if; try congruence);
    try (apply consr_inl, IH in H; [eapply err_in_mono; [..|exact H]; simpl; lia|simpl; lia]);
    try (eexists _, _, _; split; [reflexivity|simpl; lia]).
Qed.

Ltac err_here := left; eexists _, _; split; [reflexivity|simpl; lia].

(** A failing decoding step: the error is at the first byte and spans at
    most three bytes, or the input starts with the encoding of a scalar
    value and the error is in the rest. *)
Lemma decode_from_inl_cons pos ch rest e : 0 <= ch -> decode_from pos (ch :: rest) = inl e ->
  (exists sp r, e = UnicodeDecodeError pos sp r /\ (pos < sp <= pos + length (ch :: rest))%nat /\ (sp <= pos + 3)%nat) \/
  exists c b rest', ch :: rest = b ++ rest' /\ (1 <= length b)%nat /\ scalar_ok c = true /\
    encode_char c = Some b /\ decode_from (pos + length b) rest' = inl e.
Proof.
  intros Hch H. cbn [decode_from] in H.
  case_if; [|case_if; [injection H as <-; err_here|case_if; [|case_if; [|case_if; [|injection H as <-; err_here]]]]].
  - apply consr_inl in H. right. destruct (encode_char_ascii ch) as [? ?]; [lia|].
    exists ch, [ch], rest. cbn [length app]. rewrite Nat.add_1_r. repeat split; done.
  - destruct rest as [|ch2 rest']; [injection H as <-; err_here|].
    destruct (is_cont ch2) eqn:Hc2; simpl in H; [|injection H as <-; err_here].
    apply consr_inl in H. right. destruct (encode_cp2 ch ch2) as [? ?]; [lia|done|].
    exists (cp2 ch ch2), [ch; ch2], rest'. repeat split; try done. simpl; lia.
  - destruct rest as [|ch2 [|ch3 rest']];
      try (injection H as <-; unfold truncated_error; repeat case_if; err_here).
    destruct (second_ok ch ch2) eqn:Hc2; simpl in H; [|injection H as <-; err_here].
    destruct (is_cont ch3) eqn:Hc3; simpl in H; [|injection H as <-; err_here].
    apply consr_inl in H. right. destruct (encode_cp3 ch ch2 ch3) as [? ?]; [lia|done|done|].
    exists (cp3 ch ch2 ch3), [ch; ch2; ch3], rest'. repeat split; try done. simpl; lia.
  - destruct rest as [|ch2 [|ch3 [|ch4 rest']]];
      try (injection H as <-; unfold truncated_error; repeat case_if; err_here).
    destruct (second_ok ch ch2) eqn:Hc2; simpl in H; [|injection H as <-; err_here].
    destruct (is_cont ch3) eqn:Hc3; simpl in H; [|injection H as <-; err_here].
    destruct (is_cont ch4) eqn:Hc4; simpl in H; [|injection H as <-; err_here].
    apply consr_inl in H. right. destruct (encode_cp4 ch ch2 ch3 ch4) as [? ?]; [lia|done|done|done|].
    exists (cp4 ch ch2 ch3 ch4), [ch; ch2; ch3; ch4], rest'. repeat split; try done. simpl; lia.
Qed.

(** Where decoding fails: the error starts at an offset before which the
    input decodes, and spans at most three bytes of the input. *)
Lemma decode_from_error_prefix pos bs e : bytes_ok bs = true -> decode_from pos bs = inl e ->
  exists st sp r s, e = UnicodeDecodeError st sp r /\ (pos <= st < sp)%nat /\
    (sp <= pos + length bs)%nat /\ (sp <= st + 3)%nat /\ decode_from pos (firstn (st - pos) bs) = inr s.
Proof.
  revert pos. induction bs as [bs IH] using list_length_ind. intros pos Hok H.
  destruct bs as [|ch rest]; [discriminate|].
  pose proof Hok as Hch. cbn in Hch. apply andb_true_iff in Hch as [Hch%byte_ok_spec _].
  apply decode_from_inl_cons in H; [|lia].
  destruct H as [(sp & r & -> & ? & ?)|(c & b & rest' & Heq & Hlen & Hc & Hb & H)].
  { exists pos, sp, r, []. rewrite Nat.sub_diag. repeat split; try lia. }
  rewrite Heq in Hok. apply bytes_ok_app_inv in Hok as [_ Hok].
  destruct (IH rest' ltac:(rewrite Heq, length_app; lia) (pos + length b)%nat Hok H)
    as (st & sp & r & s & -> & ? & ? & ? & Hpre).
  exists st, sp, r, (c :: s). rewrite Heq, length_app. repeat split; try lia.
  replace (st - pos)%nat with (length b + (st - (pos + length b)))%nat by lia.
  rewrite firstn_app_2, (decode_from_encode_char _ c b), Hpre by done. reflexivity.
Qed.

(** Input cut inside the encoding of a scalar value ends in the middle of
    a sequence: CPython reports the end of data. *)
Lemma decode_from_cut pos c b k : scalar_ok c = true -> encode_char c = Some b ->
  (0 < k < length b)%nat ->
  decode_from pos (firstn k b) =
  inl (UnicodeDecodeError pos (pos + length (firstn k b)) UnexpectedEndOfData).
Proof.
  intros Hc Hb Hk. rewrite encode_char_arith in Hb by done. injection Hb as <-.
  pose proof (proj1 (scalar_ok_range c) Hc).
  repeat case_if; simpl length in Hk;
    destruct k as [|[|[|[|k]]]]; try lia; cbn [firstn length decode_from]; unfold truncated_error;
    utf8_arith; repeat (case_if; try zlia); f_equal; f_equal; lia.
Qed.

Lemma encode_from_error i s e : encode_from i s = inl e ->
  exists j c, e = UnicodeEncodeError (i + j) /\ s !! j = Some c /\ is_surrogate c = true /\
    forallb (fun c' => negb (is_surrogate c')) (take j s) = true.
Proof.
  revert i. induction s as [|c s IH]; intros i H; [discriminate|]. simpl in H.
  destruct (encode_char c) as [b|] eqn:Hb.
  - destruct (encode_from (S i) s) as [e'|] eqn:Hs; simpl in H; [|discriminate]. injection H as ->.
    destruct (IH _ Hs) as (j & c' & -> & Hj & Hsur & Hpre). exists (S j), c'.
    assert (Hnot : is_surrogate c = false).
    { destruct (is_surrogate c) eqn:Hsc; [|done]. apply encode_char_None in Hsc. congruence. }
    rewrite Nat.add_succ_comm. simpl. rewrite Hnot. done.
  - injection H as <-. apply encode_char_None in Hb. exists 0%nat, c. rewrite Nat.add_0_r. done.
Qed.

(** ** Properties of [encode] and [decode] *)

(** C12: Decoding what [str.encode()] produced gives the text back: for
    every str of code points, if encoding succeeds, decoding its bytes
    returns the same str. *)
Theorem decode_encode s bs : forallb codepoint_ok s = true -> encode s = inr bs -> decode bs = inr s.
Proof. apply decode_encode_from. Qed.

Lemma decode_encode_witness :
  encode [0x48; 0xE9; 0x20AC; 0x1F600] = inr [72; 195; 169; 226; 130; 172; 240; 159; 152; 128] /\
  decode [72; 195; 169; 226; 130; 172; 240; 159; 152; 128] = inr [0x48; 0xE9; 0x20AC; 0x1F600].
Proof. split; [reflexivity|]. apply (decode_encode [0x48; 0xE9; 0x20AC; 0x1F600]); reflexivity. Defined.

(** C13: Encoding what [bytes.decode()] produced gives the bytes back: the
    strict decoder accepts only canonical UTF-8, so no two byte strings
    decode to the same text. *)
Theorem encode_decode bs s : bytes_ok bs = true -> decode bs = inr s -> encode s = inr bs.
Proof. apply encode_decode_from. Qed.

Lemma encode_decode_witness : encode [0x20AC; 0x41] = inr [0xE2; 0x82; 0xAC; 0x41].
Proof. apply (encode_decode [0xE2; 0x82; 0xAC; 0x41]); reflexivity. Defined.

(** C15: Every character of a decoded str is a Unicode scalar value: in
    [0, 0x110000) and not a surrogate. *)
Theorem decode_scalar_values bs s : bytes_ok bs = true -> decode bs = inr s ->
  forallb scalar_ok s = true.
Proof. apply decode_from_scalars. Qed.

Lemma decode_scalar_values_witness : forallb scalar_ok [0x20AC; 0x41] = true.
Proof. apply (decode_scalar_values [0xE2; 0x82; 0xAC; 0x41]); reflexivity. Defined.

(** An error at the very first byte survives any cut of the input that
    keeps that byte: a prefix that decoded would start with the encoding
    of a character, and the whole input would then decode past it. *)
Lemma decode_from_head_error pos bs sp r k : bytes_ok bs = true ->
  decode_from pos bs = inl (UnicodeDecodeError pos sp r) -> (0 < k)%nat ->
  exists e', decode_from pos (firstn k bs) = inl e'.
Proof.
  intros Hok H Hk. destruct (decode_from pos (firstn k bs)) as [e'|s] eqn:Hd; [eauto|exfalso].
  destruct bs as [|ch rest]; [discriminate|]. destruct k as [|k]; [lia|].
  pose proof Hok as Hch. cbn in Hch. apply andb_true_iff in Hch as [Hch%byte_ok_spec _].
  cbn [firstn] in Hd. apply decode_from_inr_cons in Hd as (c & b & rest' & s' & Heq & Hlen & Hc & Hb & _); [|lia].
  assert (Hsplit : ch :: rest = b ++ (rest' ++ skipn k rest)).
  { by rewrite app_assoc, <- Heq, <- app_comm_cons, take_drop. }
  rewrite Hsplit, (decode_from_encode_char _ c b) in H by done.
  apply consr_inl, decode_from_error in H as (st & sp' & r' & [= -> -> ->] & ? & ?). lia.
Qed.

(** C14: [bytes.decode()] fails only with [UnicodeDecodeError], and its
    start is the length of the longest prefix of the input that decodes:
    the bytes before it decode, every longer prefix fails, and the error
    names a non-empty range of at most three bytes of the input. *)
Theorem decode_error_offsets bs e : bytes_ok bs = true -> decode bs = inl e ->
  exists st sp r s, e = UnicodeDecodeError st sp r /\ (st < sp <= length bs)%nat /\
    (sp - st <= 3)%nat /\ decode (firstn st bs) = inr s /\
    forall k, (st < k <= length bs)%nat -> exists e', decode (firstn k bs) = inl e'.
Proof.
  intros Hok H. pose proof H as Hall.
  apply decode_from_error_prefix in H as (st & sp & r & s & -> & ? & ? & ? & Hpre); [|done].
  rewrite Nat.sub_0_r in Hpre. exists st, sp, r, s. do 4 (split; [done || lia|]).
  assert (Hok1 : bytes_ok (firstn st bs) = true) by auto with pyudp.
  assert (Hlen : length (firstn st bs) = st) by (rewrite length_firstn; lia).
  unfold decode in Hall.
  rewrite <- (take_drop st bs), (decode_from_app _ _ _ s), Hlen, Nat.add_0_l in Hall by done.
  destruct (decode_from st (drop st bs)) as [e'|] eqn:Hrest; [|discriminate].
  injection Hall as ->. intros k Hk. unfold decode. replace k with (st + (k - st))%nat by lia.
  rewrite <- take_take_drop, (decode_from_app _ _ _ s), Hlen, Nat.add_0_l by done.
  destruct (decode_from_head_error st (drop st bs) sp r (k - st)) as [e'' He'']; [auto with pyudp|done|lia|].
  rewrite He''. eauto.
Qed.

Lemma decode_error_offsets_witness :
  exists st sp r s, UnicodeDecodeError 1 4 UnexpectedEndOfData = UnicodeDecodeError st sp r /\
    (st < sp <= length [0x41%Z; 0xF0%Z; 0x9F%Z; 0x98%Z])%nat /\ (sp - st <= 3)%nat /\
    decode (firstn st [0x41%Z; 0xF0%Z; 0x9F%Z; 0x98%Z]) = inr s /\
    forall k, (st < k <= length [0x41%Z; 0xF0%Z; 0x9F%Z; 0x98%Z])%nat ->
      exists e', decode (firstn k [0x41%Z; 0xF0%Z; 0x9F%Z; 0x98%Z]) = inl e'.
Proof. apply decode_error_offsets; reflexivity. Defined.

(** A byte string that is valid UTF-8 up to a point and then stops
    inside the encoding of a character fails to decode, with the end of
    data reported at the offset of that character. *)
Lemma decode_cut pre s c b k : bytes_ok pre = true -> decode pre = inr s ->
  scalar_ok c = true -> encode_char c = Some b -> (0 < k < length b)%nat ->
  decode (pre ++ firstn k b) =
  inl (UnicodeDecodeError (length pre) (length pre + k) UnexpectedEndOfData).
Proof.
  intros Hok Hdec Hc Hb Hk. unfold decode.
  rewrite (decode_from_app _ _ _ s), (decode_from_cut _ c b k) by done.
  rewrite length_firstn. simpl. do 3 f_equal. lia.
Qed.

(** Encoding succeeds only on text without a surrogate. *)
Lemma encode_from_inr_no_surrogate i s bs : encode_from i s = inr bs ->
  forallb (fun c => negb (is_surrogate c)) s = true.
Proof.
  revert i bs. induction s as [|c s IH]; intros i bs H; [done|]. simpl in H |- *.
  destruct (encode_char c) as [b|] eqn:Hb; [|discriminate].
  apply rbind_inr_inv in H as (rest & Hrest & _).
  destruct (is_surrogate c) eqn:Hsc; [apply encode_char_None in Hsc; congruence|]. eauto.
Qed.

(** C16: [str.encode()] fails exactly on text that holds a surrogate: it
    succeeds only on surrogate-free text, and the [UnicodeEncodeError] it
    raises names the first surrogate. *)
Theorem encode_error_first_surrogate s :
  match encode s with
  | inr _ => forallb (fun c => negb (is_surrogate c)) s = true
  | inl e => exists j c, e = UnicodeEncodeError j /\ s !! j = Some c /\ is_surrogate c = true /\
      forallb (fun c' => negb (is_surrogate c')) (take j s) = true
  end.
Proof.
  destruct (encode s) as [e|bs] eqn:H; [apply (encode_from_error 0) in H | by eapply encode_from_inr_no_surrogate].
  exact H.
Qed.

Lemma encode_error_first_surrogate_witness :
  encode [0x41; 0xD800; 0xDC00] = inl (UnicodeEncodeError 1) /\
  exists j c, UnicodeEncodeError 1 = UnicodeEncodeError j /\ [0x41; 0xD800; 0xDC00] !! j = Some c /\
    is_surrogate c = true /\
    forallb (fun c' => negb (is_surrogate c')) (take j [0x41; 0xD800; 0xDC00]) = true.
Proof.
  split; [reflexivity|].
  exact (encode_error_first_surrogate [0x41; 0xD800; 0xDC00]).
Defined.

End Utf8.
