(* ===== verification/PyStr.v ===== *)
(** * PyStr: [str()] of the values the script prints, and [print]

    The script prints str constants, the decoded payload (a str) and the
    sender's port (an int) with [print(a, b, ...)].  Python converts
    each argument with [str()], joins them with one space and ends the
    line with ["\n"].  [str()] of an int is its decimal form, with a minus
    sign when negative (CPython's [long_to_decimal_string]).  The digits
    are computed by repeated division with fuel.  The theorems show the
    fuel is enough and the digits read back as the number.  What [print]
    writes is text of Unicode scalar values ([print_line_scalar]), which
    is why it always encodes. *)

From S2P Require Import Prelude Utf8.

Open Scope py_scope.

Module PyStr.

(** A value passed to [print]: the script passes only str and int. *)
Inductive pyval :=
  | PStr (s : pystr)
  | PInt (n : Z).

(** The decimal digits of [n >= 0], most significant first; [fuel] bounds
    the number of divisions. *)
Fixpoint dec_digits_fuel (fuel : nat) (n : Z) : list Z :=
  match fuel with
  | O => []
  | S f => if n <? 10 then [n] else dec_digits_fuel f (n / 10) ++ [n mod 10]
  end.

(** One division per bit is more than enough: see [dec_digits_enough]. *)
Definition digits_fuel (n : Z) : nat := S (Z.to_nat (Z.log2 n)).

Definition dec_digits (n : Z) : list Z := dec_digits_fuel (digits_fuel n) n.

Definition char_of_digit (d : Z) : Z := 48 + d.

(** [str(n)] for an int. *)
Definition str_of_int (n : Z) : pystr :=
  if n <? 0 then 45 :: map char_of_digit (dec_digits (- n))
  else map char_of_digit (dec_digits n).

Definition py_str (v : pyval) : pystr :=
  match v with
  | PStr s => s
  | PInt n => str_of_int n
  end.

(** [sep.join(parts)]. *)
Fixpoint join (sep : pystr) (parts : list pystr) : pystr :=
  match parts with
  | [] => []
  | [p] => p
  | p :: ps => p ++ sep ++ join sep ps
  end.

(** The text [print] writes to stdout for [args], with [sep] a space and [end] a newline. *)
Definition print_line (args : list pyval) : pystr :=
  join [32] (map py_str args) ++ [10].

(** The value of a list of decimal digits, most significant first. *)
Definition dec_value (ds : list Z) : Z := fold_left (fun acc d => acc * 10 + d) ds 0.

(** ** Digits *)

Lemma dec_value_snoc ds d : dec_value (ds ++ [d]) = dec_value ds * 10 + d.
Proof. unfold dec_value. by rewrite fold_left_app. Qed.

Lemma dec_digits_fuel_S f n :
  dec_digits_fuel (S f) n = if n <? 10 then [n] else dec_digits_fuel f (n / 10) ++ [n mod 10].
Proof. reflexivity. Qed.

Lemma div10_lt_pow n f : 10 <= n < 2 ^ Z.of_nat (S f) -> 0 <= n / 10 < 2 ^ Z.of_nat f.
Proof.
  intros Hn. rewrite Nat2Z.inj_succ, Z.pow_succ_r in Hn by lia.
  split; [apply Z.div_pos; lia|]. apply Z.div_lt_upper_bound; lia.
Qed.

(** The fuel bound: a number below [2 ^ (f + 1)] has at most [f + 1]
    digits, so [f + 1] divisions give all of them, and more fuel changes
    nothing. *)
Lemma dec_digits_fuel_stable f1 f2 n : 0 <= n < 2 ^ Z.of_nat (S f1) -> (f1 <= f2)%nat ->
  dec_digits_fuel (S f1) n = dec_digits_fuel (S f2) n.
Proof.
  revert f2 n. induction f1 as [|f1 IH]; intros f2 n Hn Hle.
  - rewrite !dec_digits_fuel_S. simpl in Hn. case_if; [done|lia].
  - destruct f2 as [|f2]; [lia|].
    rewrite (dec_digits_fuel_S (S f1)), (dec_digits_fuel_S (S f2)). case_if; [done|].
    rewrite (IH f2); [done| |lia]. apply div10_lt_pow. lia.
Qed.

Lemma digits_fuel_enough n : 0 <= n -> n < 2 ^ Z.of_nat (digits_fuel n).
Proof.
  intros Hn. unfold digits_fuel. rewrite Nat2Z.inj_succ, Z2Nat.id by apply Z.log2_nonneg.
  destruct (Z.eq_dec n 0) as [->|]; [done|]. apply Z.log2_spec. lia.
Qed.

(** Decimal digits as [str(n)] writes them: digits, at least one, and no
    leading zero. *)
Definition digits_ok (ds : list Z) : Prop :=
  Forall (fun d => 0 <= d < 10) ds /\ ds <> [] /\ ((1 < length ds)%nat -> hd 0 ds <> 0).

Lemma dec_digits_fuel_spec f n : 0 <= n < 2 ^ Z.of_nat (S f) ->
  dec_value (dec_digits_fuel (S f) n) = n /\ digits_ok (dec_digits_fuel (S f) n).
Proof.
  revert n. induction f as [|f IH]; intros n Hn; rewrite dec_digits_fuel_S; case_if.
  1, 3: split; [reflexivity|]; split; [repeat constructor; lia|]; split; [done|simpl; lia].
  - simpl in Hn. lia.
  - destruct (IH (n / 10)) as (Hv & Hall & Hne & Hhd); [apply div10_lt_pow; lia|].
    rewrite dec_value_snoc, Hv. split; [zlia|]. repeat split.
    + apply Forall_app. split; [done|]. repeat constructor; zlia.
    + by destruct (dec_digits_fuel (S f) (n / 10)).
    + destruct (dec_digits_fuel (S f) (n / 10)) as [|d ds] eqn:Hd; [done|]. simpl. intros _.
      destruct ds as [|d' ds]; [|apply Hhd; simpl; lia].
      unfold dec_value in Hv. simpl in Hv. zlia.
Qed.

(** The decimal digits of a non-negative number read back as the number,
    are digits, and have no leading zero. *)
Lemma dec_digits_spec n : 0 <= n -> dec_value (dec_digits n) = n /\ digits_ok (dec_digits n).
Proof. intros Hn. apply dec_digits_fuel_spec. split; [done|]. by apply digits_fuel_enough. Qed.

(** The digits of a number below 1000, as [%u] prints an octet. *)
Lemma dec_digits_small n : 0 <= n < 1000 ->
  dec_digits n = if n <? 10 then [n] else if n <? 100 then [n / 10; n mod 10]
                 else [n / 100; (n / 10) mod 10; n mod 10].
Proof.
  intros Hn. unfold dec_digits. pose proof (digits_fuel_enough n ltac:(lia)) as Hf.
  destruct (digits_fuel n) as [|f] eqn:Ef; [unfold digits_fuel in Ef; lia|].
  rewrite (dec_digits_fuel_stable f (f + 9)) by lia. rewrite Nat.add_comm. simpl.
  repeat (case_if; try zlia); simpl; try reflexivity.
  by replace (n / 10 / 10) with (n / 100) by zlia.
Qed.

(** ** What [print] writes is text of scalar values *)

Lemma digits_scalar n : 0 <= n -> forallb Utf8.scalar_ok (map char_of_digit (dec_digits n)) = true.
Proof.
  intros Hn. destruct (dec_digits_spec n Hn) as [_ [Hall _]].
  induction Hall as [|d ds Hd _ IH]; [done|]. cbn [map forallb]. rewrite IH, andb_true_r.
  apply Utf8.scalar_ok_range. unfold char_of_digit. lia.
Qed.

Lemma str_of_int_scalar n : forallb Utf8.scalar_ok (str_of_int n) = true.
Proof. unfold str_of_int. case_if; [cbn [forallb]; rewrite digits_scalar by lia|apply digits_scalar]; done || lia. Qed.

Lemma join_scalar sep parts : forallb Utf8.scalar_ok sep = true ->
  Forall (fun s => forallb Utf8.scalar_ok s = true) parts -> forallb Utf8.scalar_ok (join sep parts) = true.
Proof.
  intros Hsep Hall. induction Hall as [|s ps Hs Hps IH]; [done|].
  destruct ps as [|s' ps]; [done|].
  change (join sep (s :: s' :: ps)) with (s ++ sep ++ join sep (s' :: ps)). by rewrite !forallb_app, Hs, Hsep, IH.
Qed.

Lemma print_line_scalar args : Forall (fun v => forallb Utf8.scalar_ok (py_str v) = true) args ->
  forallb Utf8.scalar_ok (print_line args) = true.
Proof.
  intros Hall. unfold print_line. rewrite forallb_app, join_scalar; [done|done|].
  induction Hall; constructor; done.
Qed.

(** C17: [str(n)] of an int is a minus sign when [n] is negative, then the
    decimal digits of [|n|]: digits that read back as [|n|], at least one
    of them, and no leading zero. *)
Theorem str_of_int_spec n : exists ds,
  str_of_int n = (if n <? 0 then [45] else []) ++ map char_of_digit ds /\
  dec_value ds = Z.abs n /\ digits_ok ds.
Proof.
  exists (dec_digits (Z.abs n)). unfold str_of_int.
  destruct (dec_digits_spec (Z.abs n)) as [Hv Hok]; [lia|].
  case_if; [rewrite Z.abs_neq in * by lia|rewrite Z.abs_eq in * by lia]; done.
Qed.

End PyStr.
