(* ===== verification/Inet.v ===== *)
(** * Inet: IPv4 addresses between the kernel and Python

    [recvfrom] (line 27) returns the sender as a [(host, port)] tuple.
    CPython's [makeipaddr] formats the 32-bit address with [inet_ntop] as
    four decimal octets, ["%u.%u.%u.%u"].  [bind] (line 23) and [sendto]
    (line 41) take such a tuple back.  CPython's [getsockaddrarg] resolves
    the host with [setipaddr], then checks the port is in [0, 65535] and
    raises [OverflowError] otherwise.  [setipaddr] maps [""] to
    [INADDR_ANY], and ["255.255.255.255"] and ["<broadcast>"] to
    [INADDR_BROADCAST] without calling [inet_pton].  It tries
    glibc's [inet_pton4] and only then resolves the name.

    [inet_pton4] is the state machine of glibc's [resolv/inet_pton.c],
    step by step.  The main theorem, [inet_pton4_iff], is that it accepts
    exactly the dotted quads [inet_ntop] writes.  So parsing the host
    string [recvfrom] produced gives back the sender's address, and the
    reply of line 41 goes to the sender ([getsockaddrarg_ntop]).  Name
    resolution is not modelled: it is a function the environment
    provides. *)

From S2P Require Import Prelude Utf8 PyStr.

Open Scope py_scope.

Module Inet.

Import PyStr.

(** An IPv4 endpoint: a 32-bit address (its value as the dotted quad reads,
    most significant octet first) and a 16-bit port. *)
Record endpoint := mk_endpoint { ep_addr : Z; ep_port : Z }.

#[export] Instance endpoint_eq_dec : EqDecision endpoint.
Proof. solve_decision. Defined.

Definition endpoint_ok (ep : endpoint) : bool :=
  (0 <=? ep_addr ep) && (ep_addr ep <? 2 ^ 32) && (0 <=? ep_port ep) && (ep_port ep <=? 0xFFFF).

Definition INADDR_ANY : Z := 0.
Definition INADDR_BROADCAST : Z := 0xFFFFFFFF.

(** ** [inet_ntop] *)

Definition octets_of (a : Z) : list Z :=
  [Z.land (Z.shiftr a 24) 0xFF; Z.land (Z.shiftr a 16) 0xFF;
   Z.land (Z.shiftr a 8) 0xFF; Z.land a 0xFF].

(** ["%u"] of an octet. *)
Definition fmt_u (o : Z) : pystr := map char_of_digit (dec_digits o).

Definition inet_ntop4 (a : Z) : pystr := join [46] (map fmt_u (octets_of a)).

Lemma inet_ntop4_scalar a : forallb Utf8.scalar_ok (inet_ntop4 a) = true.
Proof.
  unfold inet_ntop4. apply join_scalar; [done|]. unfold octets_of, fmt_u.
  repeat constructor; apply digits_scalar; apply Z.land_nonneg; lia.
Qed.

(** ** glibc's [inet_pton4]

    The state is that of the C function: [saw_digit], the count
    [octets] of octets started, the octets [tmp] already completed, and
    the octet [cur] that [tp] points at. *)
Record pton_state := mk_pton {
  saw_digit : bool;
  octets : nat;
  tmp : list Z;
  cur : Z
}.

Definition pton_init : pton_state := mk_pton false 0 [] 0.

Definition is_digit (ch : Z) : bool := (48 <=? ch) && (ch <=? 57).

(** One character of the loop [while (src < end)]: [None] is [return 0]. *)
Definition pton_step (st : pton_state) (ch : Z) : option pton_state :=
  if is_digit ch then
    let new := cur st * 10 + (ch - 48) in
    if saw_digit st && (cur st =? 0) then None
    else if 255 <? new then None
    else if negb (saw_digit st) then
      if (4 <? S (octets st))%nat then None
      else Some (mk_pton true (S (octets st)) (tmp st) new)
    else Some (mk_pton true (octets st) (tmp st) new)
  else if (ch =? 46) && saw_digit st then
    if (octets st =? 4)%nat then None
    else Some (mk_pton false (octets st) (tmp st ++ [cur st]) 0)
  else None.

Fixpoint pton_run (st : pton_state) (s : list Z) : option pton_state :=
  match s with
  | [] => Some st
  | ch :: s' =>
      match pton_step st ch with
      | Some st' => pton_run st' s'
      | None => None
      end
  end.

(** The four bytes of [tmp], as the 32-bit value they spell. *)
Definition addr_of_octets (os : list Z) : Z :=
  fold_left (fun acc o => Z.lor (Z.shiftl acc 8) o) os 0.

Definition inet_pton4 (s : list Z) : option Z :=
  match pton_run pton_init s with
  | Some st => if (octets st <? 4)%nat then None else Some (addr_of_octets (tmp st ++ [cur st]))
  | None => None
  end.

(** ** CPython's [setipaddr] and [getsockaddrarg] *)

(** Name resolution ([getaddrinfo]), which the environment provides. *)
Definition resolver := pystr -> option Z.

Definition setipaddr (resolve : resolver) (name : pystr) : res Z :=
  match name with
  | [] => inr INADDR_ANY
  | _ =>
      if bool_decide (name = lit "255.255.255.255"%string) || bool_decide (name = lit "<broadcast>"%string)
      then inr INADDR_BROADCAST
      else match inet_pton4 name with
           | Some a => inr a
           | None =>
               match resolve name with
               | Some a => inr a
               | None => inl (OSError EAI_NONAME)
               end
           end
  end.

Definition getsockaddrarg (resolve : resolver) (host : pystr) (port : Z) : res endpoint :=
  let* a := setipaddr resolve host in
  if (port <? 0) || (0xFFFF <? port) then inl OverflowError
  else inr (mk_endpoint a port).

Lemma pton_run_app st a b :
  pton_run st (a ++ b) = match pton_run st a with Some st' => pton_run st' b | None => None end.
Proof. revert st. induction a as [|ch a IH]; intros st; simpl; [done|]. destruct (pton_step st ch); auto. Qed.

Lemma fmt_u_small o : 0 <= o < 256 ->
  fmt_u o = map char_of_digit (if o <? 10 then [o] else if o <? 100 then [o / 10; o mod 10]
                               else [o / 100; (o / 10) mod 10; o mod 10]).
Proof. intros. unfold fmt_u. by rewrite dec_digits_small by lia. Qed.

Lemma pton_step_first k t d : 0 <= d < 10 -> (k < 4)%nat ->
  pton_step (mk_pton false k t 0) (48 + d) = Some (mk_pton true (S k) t d).
Proof. intros. unfold pton_step, is_digit. simpl. repeat (case_if; try lia). do 2 f_equal. lia. Qed.

Lemma pton_step_next k t c d : 0 < c -> c * 10 + d <= 255 -> 0 <= d < 10 ->
  pton_step (mk_pton true k t c) (48 + d) = Some (mk_pton true k t (c * 10 + d)).
Proof. intros. unfold pton_step, is_digit. simpl. repeat (case_if; try lia). do 2 f_equal. lia. Qed.

Lemma pton_step_dot k t c : k <> 4%nat ->
  pton_step (mk_pton true k t c) 46 = Some (mk_pton false k (t ++ [c]) 0).
Proof. intros. unfold pton_step, is_digit. simpl. case_if; [lia|done]. Qed.

Lemma pton_run_octet o k t : 0 <= o < 256 -> (k < 4)%nat ->
  pton_run (mk_pton false k t 0) (fmt_u o) = Some (mk_pton true (S k) t o).
Proof.
  intros Ho Hk. rewrite fmt_u_small by done. unfold char_of_digit.
  repeat case_if; cbn [map pton_run]; rewrite pton_step_first by zlia; [done| |].
  - rewrite pton_step_next by zlia. do 3 f_equal. zlia.
  - rewrite pton_step_next, pton_step_next by zlia. do 3 f_equal. zlia.
Qed.

Lemma land_ff x : Z.land x 0xFF = x mod 256.
Proof. apply (land_low_mod x 8). lia. Qed.

Lemma octets_of_arith a : 0 <= a < 2 ^ 32 ->
  octets_of a = [a / 16777216; (a / 65536) mod 256; (a / 256) mod 256; a mod 256].
Proof.
  intros Ha. unfold octets_of. rewrite !land_ff, !shiftr_div by lia.
  repeat f_equal. simpl in Ha. zlia.
Qed.

Lemma addr_of_octets_snoc os o : 0 <= o < 256 ->
  addr_of_octets (os ++ [o]) = addr_of_octets os * 256 + o.
Proof. intros. unfold addr_of_octets. rewrite fold_left_app. simpl. apply (lor_shiftl_low _ _ 8); lia. Qed.

Lemma pton_run_dotted o1 o2 o3 o4 : Forall (fun o => 0 <= o < 256) [o1; o2; o3; o4] ->
  pton_run pton_init (join [46] (map fmt_u [o1; o2; o3; o4])) = Some (mk_pton true 4 [o1; o2; o3] o4).
Proof.
  intros Hall. repeat (inversion_clear Hall as [|? ? ? Hall']; rename Hall' into Hall).
  cbn [map join]. unfold pton_init.
  rewrite pton_run_app, pton_run_octet by (done || lia). cbn [app pton_run]. rewrite pton_step_dot by lia.
  rewrite pton_run_app, pton_run_octet by (done || lia). cbn [app pton_run]. rewrite pton_step_dot by lia.
  rewrite pton_run_app, pton_run_octet by (done || lia). cbn [app pton_run]. rewrite pton_step_dot by lia.
  by rewrite pton_run_octet by (done || lia).
Qed.

Lemma addr_of_octets4 o1 o2 o3 o4 : Forall (fun o => 0 <= o < 256) [o1; o2; o3; o4] ->
  addr_of_octets [o1; o2; o3; o4] = ((o1 * 256 + o2) * 256 + o3) * 256 + o4.
Proof.
  intros Hall. change [o1; o2; o3; o4] with ((((@nil Z ++ [o1]) ++ [o2]) ++ [o3]) ++ [o4]).
  repeat (inversion_clear Hall as [|? ? ? Hall']; rename Hall' into Hall).
  rewrite !addr_of_octets_snoc by done. reflexivity.
Qed.

(** ** Roundtrip and bounds *)

(** The host string CPython builds from a sender's address with
    [inet_ntop] parses back, with glibc's [inet_pton4], to the same
    32-bit address. *)
Lemma inet_pton4_ntop4 a : 0 <= a < 2 ^ 32 -> inet_pton4 (inet_ntop4 a) = Some a.
Proof.
  intros Ha. unfold inet_ntop4, inet_pton4. rewrite octets_of_arith by done.
  rewrite pton_run_dotted by (simpl in Ha; repeat constructor; zlia). simpl.
  rewrite addr_of_octets4 by (simpl in Ha; repeat constructor; zlia). f_equal. simpl in Ha. zlia.
Qed.

Lemma inet_ntop4_head a : 0 <= a < 2 ^ 32 -> exists d rest, inet_ntop4 a = (48 + d) :: rest /\ 0 <= d < 10.
Proof.
  intros Ha. unfold inet_ntop4. rewrite octets_of_arith by done. cbn [map join].
  rewrite fmt_u_small by (simpl in Ha; zlia). unfold char_of_digit. repeat case_if; simpl; eexists _, _; split; try reflexivity; zlia.
Qed.

(** [setipaddr] takes a dotted quad that [inet_ntop] wrote to its address
    without calling the name resolver: it is not empty, it is
    ["255.255.255.255"] only for the broadcast address, it is not
    ["<broadcast>"], and [inet_pton4] accepts it. *)
Lemma setipaddr_ntop resolve a : 0 <= a < 2 ^ 32 -> setipaddr resolve (inet_ntop4 a) = inr a.
Proof.
  intros Ha. unfold setipaddr. pose proof (inet_pton4_ntop4 a Ha) as Hp.
  destruct (inet_ntop4_head a) as (d & rest & Hn & Hd); [lia|].
  rewrite Hn. case_bool_decide as Hb.
  { rewrite <- Hn in Hb. rewrite Hb in Hp. vm_compute in Hp. injection Hp as <-. reflexivity. }
  rewrite bool_decide_false; [|change (lit "<broadcast>"%string) with (60 :: lit "broadcast>"%string); intros [= Hc _]; lia].
  cbn [orb]. by rewrite <- Hn, Hp.
Qed.

(** [getsockaddrarg] maps the [(host, port)] tuple that [recvfrom]
    returned for a sender back to that sender's endpoint, whatever the
    name resolver: the numeric host never reaches it. *)
Lemma getsockaddrarg_ntop resolve ep : endpoint_ok ep = true ->
  getsockaddrarg resolve (inet_ntop4 (ep_addr ep)) (ep_port ep) = inr ep.
Proof.
  destruct ep as [a p]. unfold endpoint_ok. simpl. intros H. bool_to_prop.
  unfold getsockaddrarg. rewrite setipaddr_ntop by lia. simpl. case_if; [lia|done].
Qed.

(** [pton_inv]: the completed octets and the current one are bytes, the
    count [octets] is the number of octets started, at most four, and
    fewer than four right after a dot. *)
Definition pton_inv (st : pton_state) : Prop :=
  Forall (fun o => 0 <= o < 256) (tmp st) /\ 0 <= cur st < 256 /\
  (length (tmp st) + (if saw_digit st then 1 else 0) = octets st)%nat /\
  (octets st <= 4)%nat /\ (saw_digit st = false -> octets st < 4)%nat.

Lemma pton_step_inv st ch st' : pton_inv st -> pton_step st ch = Some st' -> pton_inv st'.
Proof.
  destruct st as [sd k t c]. unfold pton_inv, pton_step, is_digit. simpl.
  intros (Ht & Hc & Hl & Hk & Hs) H.
  destruct sd; simpl in *; repeat (case_if; simplify_eq/=); try discriminate;
    repeat split; try lia; try done.
  - apply Forall_app. split; [done|]. repeat constructor; lia.
  - rewrite length_app. simpl. lia.
Qed.

#[export] Hint Resolve pton_step_inv : pyudp.

(** Every state the loop of [inet_pton4] reaches from a state that
    satisfies [pton_inv] satisfies it. *)
Lemma pton_run_inv st s st' : pton_inv st -> pton_run st s = Some st' -> pton_inv st'.
Proof.
  revert st. induction s as [|ch s IH]; intros st Hinv H; simpl in H; [by simplify_eq|].
  destruct (pton_step st ch) as [st1|] eqn:Hst; [|discriminate]. eauto with pyudp.
Qed.

Lemma addr_of_octets_bound os : Forall (fun o => 0 <= o < 256) os ->
  0 <= addr_of_octets os < 2 ^ (8 * Z.of_nat (length os)).
Proof.
  induction os as [|o os IH] using rev_ind; intros Hall; [unfold addr_of_octets; simpl; lia|].
  apply Forall_app in Hall as [Hos Ho]. inversion_clear Ho.
  rewrite addr_of_octets_snoc by done. rewrite length_app, Nat2Z.inj_add, Z.mul_add_distr_l, Z.pow_add_r by lia.
  specialize (IH Hos). remember (2 ^ (8 * Z.of_nat (length os))) as P. simpl. nia.
Qed.

(** An address [inet_pton4] accepts is a 32-bit value. *)
Lemma inet_pton4_bound s a : inet_pton4 s = Some a -> 0 <= a < 2 ^ 32.
Proof.
  unfold inet_pton4. destruct (pton_run pton_init s) as [st|] eqn:Hrun; [|discriminate].
  assert (Hinv : pton_inv st) by (eapply pton_run_inv; [|exact Hrun]; unfold pton_inv; simpl; repeat split; lia || constructor).
  destruct Hinv as (Ht & Hc & Hl & Hk & Hs).
  case_if; [discriminate|]. intros [= <-].
  destruct (saw_digit st); [|specialize (Hs eq_refl); lia].
  pose proof (addr_of_octets_bound (tmp st ++ [cur st])) as Hb.
  rewrite length_app in Hb. simpl in Hb. replace (length (tmp st)) with 3%nat in Hb by lia.
  apply Hb. apply Forall_app. split; [done|]. repeat constructor; lia.
Qed.

(** ** The strings [inet_pton4] accepts *)

(** The text a state of [inet_pton4] has read: each completed octet in
    decimal followed by a dot, then the current octet if a digit of it was
    seen. *)
Definition pton_text (st : pton_state) : pystr :=
  flat_map (fun o => fmt_u o ++ [46]) (tmp st) ++ (if saw_digit st then fmt_u (cur st) else []).

Lemma fmt_u_digit d : 0 <= d < 10 -> fmt_u d = [48 + d].
Proof. intros. rewrite fmt_u_small by lia. case_if; [done|lia]. Qed.

Lemma fmt_u_snoc c d : 0 < c -> 0 <= d < 10 -> c * 10 + d < 256 ->
  fmt_u (c * 10 + d) = fmt_u c ++ [48 + d].
Proof.
  intros. rewrite !fmt_u_small by lia. unfold char_of_digit.
  repeat (case_if; try zlia); cbn [map app]; repeat (apply (f_equal2 cons); [zlia|]); reflexivity.
Qed.

Lemma pton_text_step st ch st' : pton_inv st -> (saw_digit st = false -> cur st = 0) ->
  pton_step st ch = Some st' -> pton_text st' = pton_text st ++ [ch] /\ (saw_digit st' = false -> cur st' = 0).
Proof.
  destruct st as [sd k t c]. unfold pton_inv, pton_step, is_digit, pton_text. cbn [saw_digit octets tmp cur].
  intros (_ & Hc & _) Hz H. destruct sd; cbn [andb negb] in H.
  - repeat (case_if; simplify_eq/=); split; try done.
    + rewrite fmt_u_snoc by lia. replace (48 + (ch - 48)) with ch by lia. by rewrite app_assoc.
    + rewrite flat_map_app. cbn. by rewrite !app_nil_r, <- app_assoc.
  - rewrite Hz in H by done. repeat (case_if; simplify_eq/=); split; try done.
    rewrite fmt_u_digit by lia. replace (48 + (0 * 10 + (ch - 48))) with ch by lia. by rewrite app_nil_r.
Qed.

Lemma pton_run_text s st : pton_run pton_init s = Some st ->
  pton_text st = s /\ pton_inv st /\ (saw_digit st = false -> cur st = 0).
Proof.
  revert st. induction s as [|ch s IH] using rev_ind; intros st Hrun.
  - injection Hrun as <-. unfold pton_inv. cbn. repeat split; try lia. constructor.
  - rewrite pton_run_app in Hrun. destruct (pton_run pton_init s) as [st0|] eqn:H0; [|discriminate].
    destruct (IH st0 eq_refl) as (Ht & Hinv & Hz). cbn in Hrun.
    destruct (pton_step st0 ch) as [st1|] eqn:Hs; [|discriminate]. injection Hrun as <-.
    destruct (pton_text_step st0 ch st1 Hinv Hz Hs) as [Ht1 Hz1].
    split; [by rewrite Ht1, Ht|]. split; [eauto with pyudp|done].
Qed.

Lemma octets_of_addr o1 o2 o3 o4 : Forall (fun o => 0 <= o < 256) [o1; o2; o3; o4] ->
  octets_of (addr_of_octets [o1; o2; o3; o4]) = [o1; o2; o3; o4].
Proof.
  intros Hall. rewrite addr_of_octets4 by done.
  repeat (inversion_clear Hall as [|? ? ? Hall']; rename Hall' into Hall).
  rewrite octets_of_arith by (simpl; lia). repeat (apply (f_equal2 cons); [zlia|]); reflexivity.
Qed.

(** What [inet_pton4] accepts is written back by [inet_ntop]: the
    leading-zero, range and count checks of the loop leave only the
    canonical dotted quad. *)
Lemma inet_pton4_canonical s a : inet_pton4 s = Some a -> inet_ntop4 a = s.
Proof.
  unfold inet_pton4. destruct (pton_run pton_init s) as [st|] eqn:Hrun; [|discriminate].
  apply pton_run_text in Hrun as (Htext & (Ht & Hc & Hl & Hk & Hs) & _).
  case_if; [discriminate|]. intros [= <-].
  destruct (saw_digit st) eqn:Hsd; [|specialize (Hs eq_refl); lia].
  destruct (tmp st) as [|o1 [|o2 [|o3 [|]]]] eqn:Et; simpl in Hl; try lia.
  repeat (inversion_clear Ht as [|? ? ? Ht']; rename Ht' into Ht).
  cbn [app]. unfold inet_ntop4. rewrite octets_of_addr by (repeat constructor; lia).
  rewrite <- Htext. unfold pton_text. rewrite Et, Hsd. cbn [flat_map map join]. by rewrite <- !app_assoc.
Qed.

(** C11: [inet_pton4] accepts exactly the strings [inet_ntop] writes: a
    string parses to [a] if and only if [a] is a 32-bit address and the
    string is its dotted quad, so the host [recvfrom] reports parses back
    to the sender's address and nothing else parses to it. *)
Theorem inet_pton4_iff s a : inet_pton4 s = Some a <-> 0 <= a < 2 ^ 32 /\ s = inet_ntop4 a.
Proof.
  split.
  - intros H. split; [by eapply inet_pton4_bound|]. symmetry. by apply inet_pton4_canonical.
  - intros [Ha ->]. by apply inet_pton4_ntop4.
Qed.

End Inet.
