(* ===== verification/Socket.v ===== *)
(** * Socket: a UDP socket of the kernel, as the script uses it

    Line 19 creates an [AF_INET]/[SOCK_DGRAM] socket and line 23 binds it.
    Line 27 receives with [recvfrom(256)] and line 41 sends with [sendto].
    The model is the Linux behaviour of these calls as CPython's
    [socketmodule.c] invokes them:
    - [bind] resolves the address with [getsockaddrarg], then fails with
      [EADDRNOTAVAIL] when the address is not local, [EACCES] for a
      privileged port, [EINVAL] when the socket is already bound and
      [EADDRINUSE] when the port is taken.
    - [recvfrom(n)] blocks while no datagram is queued.  It returns the
      first [n] bytes of the oldest datagram; the rest of a longer datagram
      is discarded.  The sender is given as [(inet_ntop(addr), port)].
    - [sendto] resolves the destination, fails with [EMSGSIZE] above the
      largest UDP payload and with [ENETUNREACH] without a route, and
      otherwise sends one datagram from the bound endpoint.
    - The network delivers datagrams addressed to the bound endpoint to
      the end of the queue, unless the receive buffer is full: then the
      kernel drops the datagram ([udp_queue_rcv_skb] when the charged
      memory exceeds [SO_RCVBUF]).  Whether there is room is the host's
      decision, [rcv_room].

    Simplifications: [sendto] reports every routing failure as
    [ENETUNREACH] and never blocks on the send buffer; [bind] decides
    [EADDRINUSE] by port alone (no per-address conflicts, [SO_REUSEADDR]
    or [ip_nonlocal_bind]).

    The class [DatagramSocket] gives these operations and
    [DatagramSocketLaws] states what the server relies on.  The kernel
    model [udp_sock] is an instance, and its laws are proved. *)

From S2P Require Import Prelude PyStr Inet.

Open Scope py_scope.

Module Socket.

Import Inet.

Record datagram := mk_dgram { dg_src : endpoint; dg_dst : endpoint; dg_payload : bytes }.

#[export] Instance datagram_eq_dec : EqDecision datagram.
Proof. solve_decision. Defined.

(** The largest payload of an IPv4 UDP datagram: 65535 - 8 - 20. *)
Definition MAX_UDP_PAYLOAD : Z := 65507.

(** ** The interface *)

Class DatagramSocket (S : Type) := {
  sock_bind : S -> pystr -> Z -> res S;
  sock_recvfrom : S -> nat -> option (S * (bytes * (pystr * Z)));
  sock_sendto : S -> bytes -> pystr -> Z -> res (S * nat);
  sock_deliver : S -> datagram -> S;
  sock_local : S -> option endpoint;
  sock_queue : S -> list datagram;
  sock_sent : S -> list datagram;
  sock_route : S -> Z -> bool;
  sock_room : S -> datagram -> bool
}.

(** The sender of a datagram, as [recvfrom] returns it. *)
Definition py_addr (ep : endpoint) : pystr * Z := (inet_ntop4 (ep_addr ep), ep_port ep).

(** Whether a datagram is addressed to a socket bound at [me]. *)
Definition accepts (me : endpoint) (dg : datagram) : bool :=
  (ep_port (dg_dst dg) =? ep_port me) &&
  ((ep_addr me =? INADDR_ANY) || (ep_addr (dg_dst dg) =? ep_addr me)).

(** What the server relies on.  [recvfrom] blocks exactly when nothing is
    queued and otherwise returns the first [n] bytes of the oldest
    datagram with its sender.  [sendto] to an endpoint fails exactly when
    the payload is too large or there is no route; otherwise it sends one
    datagram from the bound endpoint.  [bind] to an endpoint binds there.
    The network appends to the queue the datagrams addressed to the
    socket for which its receive buffer has room.  No operation
    other than [bind] changes the bound endpoint or the routes. *)
Class DatagramSocketLaws (S : Type) `{DatagramSocket S} := {
  recvfrom_blocks s n : sock_recvfrom s n = None <-> sock_queue s = [];
  recvfrom_head s n dg q : sock_queue s = dg :: q ->
    exists s', sock_recvfrom s n = Some (s', (firstn n (dg_payload dg), py_addr (dg_src dg))) /\
      sock_queue s' = q /\ sock_sent s' = sock_sent s /\ sock_local s' = sock_local s /\
      sock_route s' = sock_route s;
  sendto_endpoint s me data ep : sock_local s = Some me -> endpoint_ok ep = true ->
    if MAX_UDP_PAYLOAD <? Z.of_nat (length data) then
      sock_sendto s data (inet_ntop4 (ep_addr ep)) (ep_port ep) = inl (OSError EMSGSIZE)
    else if negb (sock_route s (ep_addr ep)) then
      sock_sendto s data (inet_ntop4 (ep_addr ep)) (ep_port ep) = inl (OSError ENETUNREACH)
    else exists s', sock_sendto s data (inet_ntop4 (ep_addr ep)) (ep_port ep) = inr (s', length data) /\
      sock_sent s' = sock_sent s ++ [mk_dgram me ep data] /\ sock_queue s' = sock_queue s /\
      sock_local s' = sock_local s /\ sock_route s' = sock_route s;
  bind_endpoint s ep s' : endpoint_ok ep = true -> ep_port ep <> 0 ->
    sock_bind s (inet_ntop4 (ep_addr ep)) (ep_port ep) = inr s' ->
    sock_local s' = Some ep /\ sock_queue s' = sock_queue s /\ sock_sent s' = sock_sent s /\
    sock_route s' = sock_route s;
  deliver_spec s dg : sock_local s <> None ->
    sock_queue (sock_deliver s dg) =
      (match sock_local s with
       | Some me => if accepts me dg && sock_room s dg then sock_queue s ++ [dg] else sock_queue s
       | None => sock_queue s
       end) /\
    sock_sent (sock_deliver s dg) = sock_sent s /\ sock_local (sock_deliver s dg) = sock_local s /\
    sock_route (sock_deliver s dg) = sock_route s
}.

(** ** The kernel model *)

(** What the host provides: its interface addresses, the UDP ports other
    sockets hold, whether the process may bind privileged ports, the port
    an implicit bind picks, its routes, whether the receive buffer holding
    a queue has room for one more datagram, and its name resolution. *)
Record netenv := mk_netenv {
  local_addrs : list Z;
  ports_in_use : list Z;
  privileged : bool;
  ephemeral_port : Z;
  routable : Z -> bool;
  rcv_room : list datagram -> datagram -> bool;
  resolve : resolver
}.

Record udp_sock := mk_sock {
  env : netenv;
  local : option endpoint;
  queue : list datagram;
  sent : list datagram
}.

(** [socket.socket(AF_INET, SOCK_DGRAM)]: unbound, nothing queued or sent. *)
Definition socket (e : netenv) : udp_sock := mk_sock e None [] [].

Definition bind (s : udp_sock) (host : pystr) (port : Z) : res udp_sock :=
  let* ep := getsockaddrarg (resolve (env s)) host port in
  if negb ((ep_addr ep =? INADDR_ANY) || existsb (Z.eqb (ep_addr ep)) (local_addrs (env s)))
  then inl (OSError EADDRNOTAVAIL)
  else if (0 <? ep_port ep) && (ep_port ep <? 1024) && negb (privileged (env s))
  then inl (OSError EACCES)
  else if is_Some_dec (local s) then inl (OSError EINVAL)
  else if existsb (Z.eqb (ep_port ep)) (ports_in_use (env s)) then inl (OSError EADDRINUSE)
  else
    let port' := if ep_port ep =? 0 then ephemeral_port (env s) else ep_port ep in
    inr (mk_sock (env s) (Some (mk_endpoint (ep_addr ep) port')) (queue s) (sent s)).

Definition recvfrom (s : udp_sock) (bufsize : nat) : option (udp_sock * (bytes * (pystr * Z))) :=
  match queue s with
  | [] => None
  | dg :: q =>
      Some (mk_sock (env s) (local s) q (sent s),
            (firstn bufsize (dg_payload dg), py_addr (dg_src dg)))
  end.

Definition sendto (s : udp_sock) (data : bytes) (host : pystr) (port : Z) : res (udp_sock * nat) :=
  let* ep := getsockaddrarg (resolve (env s)) host port in
  if MAX_UDP_PAYLOAD <? Z.of_nat (length data) then inl (OSError EMSGSIZE)
  else if negb (routable (env s) (ep_addr ep)) then inl (OSError ENETUNREACH)
  else
    let src := match local s with
               | Some me => me
               | None => mk_endpoint INADDR_ANY (ephemeral_port (env s))
               end in
    inr (mk_sock (env s) (Some src) (queue s) (sent s ++ [mk_dgram src ep data]), length data).

Definition deliver (s : udp_sock) (dg : datagram) : udp_sock :=
  match local s with
  | Some me =>
      if accepts me dg && rcv_room (env s) (queue s) dg
      then mk_sock (env s) (local s) (queue s ++ [dg]) (sent s) else s
  | None => s
  end.

#[export] Instance udp_sock_socket : DatagramSocket udp_sock := {
  sock_bind := bind;
  sock_recvfrom := recvfrom;
  sock_sendto := sendto;
  sock_deliver := deliver;
  sock_local := local;
  sock_queue := queue;
  sock_sent := sent;
  sock_route s := routable (env s);
  sock_room s := rcv_room (env s) (queue s)
}.

(** ** The kernel model meets the interface *)

Ltac sock_unfold :=
  cbv [sock_bind sock_recvfrom sock_sendto sock_deliver sock_local sock_queue sock_sent
       sock_route sock_room udp_sock_socket] in *.

#[export] Instance udp_sock_laws : DatagramSocketLaws udp_sock.
Proof.
  split; sock_unfold.
  - intros s n. unfold recvfrom. destruct (queue s); split; congruence.
  - intros s n dg q Hq. unfold recvfrom. rewrite Hq. by eexists.
  - intros s me data ep Hme Hep. unfold sendto.
    rewrite getsockaddrarg_ntop by done. autorewrite with pyudp_rw. rewrite Hme.
    case_if; [done|]. destruct (routable (env s) (ep_addr ep)); cbn [negb]; [|done].
    by eexists.
  - intros s ep s' Hep Hp. unfold bind. rewrite getsockaddrarg_ntop by done. autorewrite with pyudp_rw.
    repeat match goal with |- context [if ?b then inl _ else _] => destruct b; [discriminate|] end.
    intros [= <-]. cbn [local queue sent env].
    case_if; [lia|]. by destruct ep.
  - intros s dg Hs. unfold deliver. destruct (local s) as [me|] eqn:Hl; [|done].
    case_if; done.
Qed.

(** ** The reply reaches the sender *)

(** C10: On the kernel model, [sendto] to the [(host, port)] tuple that
    [recvfrom] reported for a sender sends one datagram, from the bound
    endpoint to exactly that sender, returns the number of bytes sent, and
    leaves the binding and the queue alone; the payload must fit in a UDP
    datagram and the host must have a route to the sender. *)
Theorem sendto_reply_reaches_sender s me data ep :
  local s = Some me -> endpoint_ok ep = true ->
  Z.of_nat (length data) <= MAX_UDP_PAYLOAD -> routable (env s) (ep_addr ep) = true ->
  sendto s data (fst (py_addr ep)) (snd (py_addr ep)) =
    inr (mk_sock (env s) (local s) (queue s) (sent s ++ [mk_dgram me ep data]), length data).
Proof.
  intros Hme Hep Hlen Hr. unfold sendto, py_addr. cbn [fst snd].
  rewrite getsockaddrarg_ntop by done. autorewrite with pyudp_rw. case_if; [lia|]. by rewrite Hr, Hme.
Qed.

Lemma sendto_reply_reaches_sender_witness :
  sendto (mk_sock (mk_netenv [0x0A000001] [] false 50000 (fun _ => true) (fun _ _ => true) (fun _ => None))
                  (Some (mk_endpoint 0x0A000001 44444)) [] [])
         [0x48; 0x69] (fst (py_addr (mk_endpoint 0x0A000002 5000))) (snd (py_addr (mk_endpoint 0x0A000002 5000))) =
  inr (mk_sock (mk_netenv [0x0A000001] [] false 50000 (fun _ => true) (fun _ _ => true) (fun _ => None))
               (Some (mk_endpoint 0x0A000001 44444)) []
               [mk_dgram (mk_endpoint 0x0A000001 44444) (mk_endpoint 0x0A000002 5000) [0x48; 0x69]], 2%nat).
Proof.
  apply (sendto_reply_reaches_sender
           (mk_sock (mk_netenv [0x0A000001] [] false 50000 (fun _ => true) (fun _ _ => true) (fun _ => None))
                    (Some (mk_endpoint 0x0A000001 44444)) [] [])
           (mk_endpoint 0x0A000001 44444) [0x48; 0x69] (mk_endpoint 0x0A000002 5000));
    first [reflexivity | vm_compute; congruence].
Defined.

End Socket.
