(* ===== verification/Server.v ===== *)
(** * Server: the script [udp_server.py]

    The script's state is its globals ([MSG_EXP_BYTES], [MSG_TX_BYTES],
    lines 12-16), its socket [sock] (lines 19-23), what it has printed,
    and whether it is still running or died of an uncaught exception.  The
    statements run in a small state-and-exception monad [M] over that
    state.  What an exception interrupts stays printed, and [recvfrom]
    may block instead of returning.  [print] encodes its line for stdout
    and may raise; the lemmas [mbind_print], [mbind_sendto] and the
    others give one law per statement, and [nonblocking] shows that only
    [recvfrom] blocks.

    - [startup] is lines 18-24 from the socket [socket()] returned: the
      prints and [bind]; [script] adds the case where [socket()] raises.
    - [loop_body] is one pass of the [while True] loop, lines 27-42.
    - [iterate] runs one pass and turns an exception into [Crashed].
    - [serve] runs the loop with fuel: the loop has no exit, so the fuel
      counts passes, and [serve] stops early only when the process blocks
      or dies.
    - [step] is the process as a transition system: a pass of the loop,
      or the network delivering a datagram, in any order.  [run] labels
      the same runs with the datagrams the loop received; the invariants
      (socket bound, replies sent = replies owed, crash causes) are proved
      by induction on it.
    - [script_safety] composes startup with every run: what the whole
      script sends, from its first line.
    - [responder] is the contract of the spec (4.1, 8): reply to each
      datagram whose payload is exactly ["Hello World from CC3000"], and
      die on a payload that does not decode.

    Everything is proved against the socket interface [DatagramSocketLaws]
    of [Socket], so it holds for the kernel model [udp_sock]. *)

From S2P Require Import Prelude Utf8 PyStr Inet Socket.

Open Scope py_scope.

Module Server.

Import PyStr Inet Socket.

(** ** Constants (lines 9-16) *)

Definition UDP_IP : pystr := lit "10.0.0.1".
Definition UDP_PORT : Z := 44444.
Definition MSG_EXP : pystr := lit "Hello World from CC3000".
Definition MSG_TX : pystr := lit "Hello CC3000".

(** [recvfrom(256)], line 27. *)
Definition BUFSIZE : nat := 256.

(** The endpoint of line 23, as [bind] resolves [(UDP_IP, UDP_PORT)]. *)
Definition SERVER_EP : endpoint := mk_endpoint 0x0A000001 UDP_PORT.

Record globals := mk_globals { MSG_EXP_BYTES : bytes; MSG_TX_BYTES : bytes }.

(** Lines 13 and 16: [MSG_EXP.encode()] and [MSG_TX.encode()]. *)
Definition module_globals : res globals :=
  let* e := Utf8.encode MSG_EXP in
  let* t := Utf8.encode MSG_TX in
  inr (mk_globals e t).

Inductive status := Running | Crashed (e : PyExc).

(** The constants are ASCII, so their UTF-8 bytes are their codes. *)
Lemma module_globals_value : module_globals = inr (mk_globals MSG_EXP MSG_TX).
Proof. reflexivity. Qed.

Lemma decode_MSG_EXP : Utf8.decode MSG_EXP = inr MSG_EXP.
Proof. reflexivity. Qed.

(** The comparison of line 36 is on decoded text; on bytes that decode,
    it is the comparison of the received bytes with [MSG_EXP_BYTES]. *)
Lemma text_match_iff_bytes g pl data : module_globals = inr g -> bytes_ok pl = true ->
  Utf8.decode (firstn BUFSIZE pl) = inr data -> (data = MSG_EXP <-> pl = MSG_EXP_BYTES g).
Proof.
  rewrite module_globals_value. intros [= <-] Hok Hd. cbn [MSG_EXP_BYTES]. split.
  - intros ->. apply (Utf8.encode_decode_from 0 0) in Hd; [|auto with pyudp].
    change (Utf8.encode_from 0 MSG_EXP) with (inr (A := PyExc) MSG_EXP) in Hd. injection Hd as Hd.
    assert (Hlen : length (firstn BUFSIZE pl) = 23%nat) by (rewrite <- Hd; reflexivity).
    rewrite length_firstn in Hlen. unfold BUFSIZE in Hlen.
    rewrite Hd, firstn_all2; [done|unfold BUFSIZE; lia].
  - intros ->. rewrite firstn_all2 in Hd by (apply Nat.leb_le; reflexivity). rewrite decode_MSG_EXP in Hd. by injection Hd.
Qed.

Section Process.

Context {Sock : Type} `{DatagramSocketLaws Sock}.

Record proc := mk_proc {
  p_globals : globals;
  p_sock : Sock;
  p_stdout : list pystr;
  p_status : status
}.

Definition set_sock (p : proc) (s : Sock) : proc :=
  mk_proc (p_globals p) s (p_stdout p) (p_status p).
Definition set_status (p : proc) (st : status) : proc :=
  mk_proc (p_globals p) (p_sock p) (p_stdout p) st.

(** ** The statement monad *)

Inductive outcome (A : Type) := Done (a : A) | Raised (e : PyExc) | Blocks.
Arguments Done {A} a.
Arguments Raised {A} e.
Arguments Blocks {A}.

Definition M (A : Type) : Type := proc -> proc * outcome A.

Definition mret {A} (a : A) : M A := fun p => (p, Done a).

Definition mbind {A B} (c : M A) (k : A -> M B) : M B := fun p =>
  match c p with
  | (p', Done a) => k a p'
  | (p', Raised e) => (p', Raised e)
  | (p', Blocks) => (p', Blocks)
  end.

Local Notation "'let!' x := c 'in' k" := (mbind c (fun x => k))
  (at level 10, x name, c at level 100, k at level 200).

Definition raise {A} (e : PyExc) : M A := fun p => (p, Raised e).

Definition lift_res {A} (r : res A) : M A :=
  match r with
  | inl e => raise e
  | inr a => mret a
  end.

(** [print] writes its line through [sys.stdout], which encodes it: with
    the UTF-8 locale of the host, as UTF-8 with strict errors, raising
    [UnicodeEncodeError] on a lone surrogate.  The model keeps the text
    of each line written; a line that fails to encode is not written. *)
Definition print (args : list pyval) : M unit := fun p =>
  match Utf8.encode (print_line args) with
  | inl e => (p, Raised e)
  | inr _ => (mk_proc (p_globals p) (p_sock p) (p_stdout p ++ [print_line args]) (p_status p), Done tt)
  end.

Definition globals_of : M globals := fun p => (p, Done (p_globals p)).

Definition recvfrom (n : nat) : M (bytes * (pystr * Z)) := fun p =>
  match sock_recvfrom (p_sock p) n with
  | None => (p, Blocks)
  | Some (s', r) => (set_sock p s', Done r)
  end.

Definition sendto (data : bytes) (host : pystr) (port : Z) : M nat := fun p =>
  match sock_sendto (p_sock p) data host port with
  | inl e => (p, Raised e)
  | inr (s', k) => (set_sock p s', Done k)
  end.

Definition bind (host : pystr) (port : Z) : M unit := fun p =>
  match sock_bind (p_sock p) host port with
  | inl e => (p, Raised e)
  | inr s' => (set_sock p s', Done tt)
  end.

(** ** The script *)

(** Lines 18-24. *)
Definition startup_body : M unit :=
  let! _ := print [PStr (lit "Creating socket...")] in
  let! _ := print [PStr (lit "Created!")] in
  let! _ := print [PStr (lit "Binding to:"); PStr UDP_IP; PStr (lit ":"); PInt UDP_PORT] in
  let! _ := bind UDP_IP UDP_PORT in
  print [PStr (lit "Bound!")].

(** Lines 29-42: what the loop does with a received datagram. *)
Definition handle (data_bytes : bytes) (src_ip : pystr) (src_port : Z) : M unit :=
  let! data := lift_res (Utf8.decode data_bytes) in
  let! _ := print [PStr (lit "Message Received:")] in
  let! _ := print [PStr (lit "data is: "); PStr data] in
  let! _ := print [PStr (lit "src_ip is: "); PStr src_ip] in
  let! _ := print [PStr (lit "src_port is: "); PInt src_port] in
  if negb (bool_decide (data = MSG_EXP)) then
    print [PStr (lit "Message text was not as expected.")]
  else
    let! _ := print [PStr (lit "Sending Reply...")] in
    let! g := globals_of in
    let! _ := sendto (MSG_TX_BYTES g) src_ip src_port in
    print [PStr (lit "Sent!")].

(** Lines 27-42: one pass of [while True]. *)
Definition loop_body : M unit :=
  let! r := recvfrom BUFSIZE in
  let '(data_bytes, (src_ip, src_port)) := r in
  handle data_bytes src_ip src_port.

(** An uncaught exception ends the process. *)
Definition finish (r : proc * outcome unit) : proc :=
  match r with
  | (p, Raised e) => set_status p (Crashed e)
  | (p, _) => p
  end.

(** The whole script up to the loop, from the socket [socket()] returns.
    The module-level [encode] calls run first. *)
Definition startup (s0 : Sock) : proc :=
  match module_globals with
  | inl e => mk_proc (mk_globals [] []) s0 [] (Crashed e)
  | inr g => finish (startup_body (mk_proc g s0 [] Running))
  end.

(** One pass of the loop; [None] when [recvfrom] blocks. *)
Definition iterate (p : proc) : option proc :=
  match loop_body p with
  | (_, Blocks) => None
  | r => Some (finish r)
  end.

(** [while True]: at most [fuel] passes; the loop stops early only when
    the process blocks in [recvfrom] or dies. *)
Fixpoint serve (fuel : nat) (p : proc) : proc :=
  match fuel with
  | O => p
  | S f =>
      match p_status p with
      | Crashed _ => p
      | Running =>
          match iterate p with
          | None => p
          | Some p' => serve f p'
          end
      end
  end.

(** A datagram as the network carries it: a byte payload from a valid
    IPv4 endpoint. *)
Definition dg_ok (dg : datagram) : bool := bytes_ok (dg_payload dg) && endpoint_ok (dg_src dg).

Lemma dg_ok_intro dg : bytes_ok (dg_payload dg) = true -> endpoint_ok (dg_src dg) = true -> dg_ok dg = true.
Proof. intros H1 H2. unfold dg_ok. by rewrite H1, H2. Qed.

(** The process among the network: a pass of the loop, or the delivery of
    a datagram to its socket, in any order, while it runs. *)
Inductive step : proc -> proc -> Prop :=
  | step_loop p p' : p_status p = Running -> iterate p = Some p' -> step p p'
  | step_deliver p dg : p_status p = Running -> dg_ok dg = true ->
      step p (set_sock p (sock_deliver (p_sock p) dg)).

(** The same runs, with the datagrams the loop took from the queue, oldest
    first. *)
Inductive run (p0 : proc) : list datagram -> proc -> Prop :=
  | run_start : run p0 [] p0
  | run_loop h p dg q p' : run p0 h p -> p_status p = Running ->
      sock_queue (p_sock p) = dg :: q -> iterate p = Some p' -> run p0 (h ++ [dg]) p'
  | run_deliver h p dg : run p0 h p -> p_status p = Running -> dg_ok dg = true ->
      run p0 h (set_sock p (sock_deliver (p_sock p) dg)).

Inductive reachable (p0 : proc) : proc -> Prop :=
  | reach_refl : reachable p0 p0
  | reach_step p p' : reachable p0 p -> step p p' -> reachable p0 p'.

(** ** One pass of the loop *)

Definition add_lines (p : proc) (ls : list pystr) : proc :=
  mk_proc (p_globals p) (p_sock p) (p_stdout p ++ ls) (p_status p).

Lemma add_lines_app p a b : add_lines (add_lines p a) b = add_lines p (a ++ b).
Proof. unfold add_lines. cbn. by rewrite app_assoc. Qed.

Lemma p_sock_add_lines p ls : p_sock (add_lines p ls) = p_sock p.
Proof. reflexivity. Qed.

Lemma p_globals_add_lines p ls : p_globals (add_lines p ls) = p_globals p.
Proof. reflexivity. Qed.

(** *** The statements, one law each *)

Lemma mbind_mret {A B} (a : A) (k : A -> M B) p : mbind (mret a) k p = k a p.
Proof. reflexivity. Qed.

Lemma print_ok args p : forallb Utf8.scalar_ok (print_line args) = true ->
  print args p = (add_lines p [print_line args], Done tt).
Proof.
  intros Hsc. destruct (Utf8.encode_from_scalars 0 _ Hsc) as [bs Hbs].
  unfold print, Utf8.encode. by rewrite Hbs.
Qed.

Lemma mbind_print {B} args (k : unit -> M B) p : forallb Utf8.scalar_ok (print_line args) = true ->
  mbind (print args) k p = k tt (add_lines p [print_line args]).
Proof. intros Hsc. unfold mbind. by rewrite print_ok. Qed.

Lemma mbind_globals_of {B} (k : globals -> M B) p : mbind globals_of k p = k (p_globals p) p.
Proof. reflexivity. Qed.

Lemma mbind_sendto {B} d h pt (k : nat -> M B) p :
  mbind (sendto d h pt) k p =
  match sock_sendto (p_sock p) d h pt with
  | inl e => (p, Raised e)
  | inr (s', n) => k n (set_sock p s')
  end.
Proof. unfold mbind, sendto. by destruct (sock_sendto _ _ _ _) as [|[]]. Qed.

Lemma mbind_bind {B} h pt (k : unit -> M B) p :
  mbind (bind h pt) k p =
  match sock_bind (p_sock p) h pt with
  | inl e => (p, Raised e)
  | inr s' => k tt (set_sock p s')
  end.
Proof. unfold mbind, bind. by destruct (sock_bind _ _ _). Qed.

(** The side condition of [print_ok]: every argument is text of scalar
    values; literals by evaluation, the rest by hypothesis or [str()]. *)
Ltac print_side :=
  apply print_line_scalar; repeat constructor; cbn [py_str];
  first [ reflexivity | assumption | apply str_of_int_scalar ].

Ltac run_prints := repeat (rewrite mbind_print by print_side; cbv beta).

(** *** No statement of the loop body blocks but [recvfrom] *)

Definition nonblocking {A} (c : M A) : Prop := forall p, snd (c p) <> Blocks.

Lemma mbind_nb {A B} (c : M A) (k : A -> M B) :
  nonblocking c -> (forall a, nonblocking (k a)) -> nonblocking (mbind c k).
Proof. intros Hc Hk p. unfold mbind. specialize (Hc p). destruct (c p) as [p' [a| |]]; by try apply Hk. Qed.

Lemma print_nb args : nonblocking (print args).
Proof. intros p. unfold print. by destruct (Utf8.encode _). Qed.

Lemma lift_res_nb {A} (r : res A) : nonblocking (lift_res r).
Proof. intros p. by destruct r. Qed.

Lemma globals_of_nb : nonblocking globals_of.
Proof. by intros p. Qed.

Lemma sendto_nb d h pt : nonblocking (sendto d h pt).
Proof. intros p. unfold sendto. by destruct (sock_sendto _ _ _ _) as [|[]]. Qed.

(** A property of statements that [mbind] preserves is proved of a
    program by walking its statements: [bind_lemma] at each [let!],
    [leaf] at each statement, a case split at each [if]. *)
Ltac through_statements bind_lemma leaf :=
  repeat first
    [ apply bind_lemma | leaf
    | match goal with
      | |- forall _, _ => intro
      | |- _ (if ?b then _ else _) => destruct b
      end ].

Ltac nonblocking :=
  through_statements mbind_nb ltac:(first [apply print_nb | apply lift_res_nb | apply globals_of_nb | apply sendto_nb]).

Lemma handle_never_blocks d ip port p : snd (handle d ip port p) <> Blocks.
Proof. revert p. change (nonblocking (handle d ip port)). unfold handle. nonblocking. Qed.

(** *** The three outcomes of [handle] *)

Lemma handle_decode_error d ip port p e :
  Utf8.decode d = inl e -> handle d ip port p = (p, Raised e).
Proof. intros He. unfold handle, mbind, lift_res. by rewrite He. Qed.

(** The four lines of lines 31-34. *)
Definition received_lines (data ip : pystr) (port : Z) : list pystr :=
  [print_line [PStr (lit "Message Received:")];
   print_line [PStr (lit "data is: "); PStr data];
   print_line [PStr (lit "src_ip is: "); PStr ip];
   print_line [PStr (lit "src_port is: "); PInt port]].

Lemma handle_other d ip port p data : Utf8.decode d = inr data -> data <> MSG_EXP ->
  forallb Utf8.scalar_ok data = true -> forallb Utf8.scalar_ok ip = true ->
  handle d ip port p =
  (add_lines p (received_lines data ip port ++
                [print_line [PStr (lit "Message text was not as expected.")]]), Done tt).
Proof.
  intros Hd Hne Hdata Hip. unfold handle. rewrite Hd. cbn [lift_res]. rewrite mbind_mret. cbv beta.
  run_prints. rewrite bool_decide_false by done. cbn [negb].
  rewrite print_ok by print_side. by rewrite !add_lines_app.
Qed.

Lemma handle_match d ip port p : Utf8.decode d = inr MSG_EXP -> forallb Utf8.scalar_ok ip = true ->
  handle d ip port p =
    let p1 := add_lines p (received_lines MSG_EXP ip port ++ [print_line [PStr (lit "Sending Reply...")]]) in
    match sock_sendto (p_sock p) (MSG_TX_BYTES (p_globals p)) ip port with
    | inl e => (p1, Raised e)
    | inr (s', _) => (set_sock (add_lines p1 [print_line [PStr (lit "Sent!")]]) s', Done tt)
    end.
Proof.
  intros Hd Hip. unfold handle. rewrite Hd. cbn [lift_res]. rewrite mbind_mret. cbv beta.
  run_prints. rewrite bool_decide_true by done. cbn [negb]. run_prints.
  rewrite mbind_globals_of. cbv beta. rewrite mbind_sendto, !p_sock_add_lines, !p_globals_add_lines.
  destruct (sock_sendto _ _ _ _) as [e|[s' k]]; cbv beta; [by rewrite !add_lines_app|].
  rewrite print_ok by print_side. unfold set_sock, add_lines. cbn. by rewrite <- !app_assoc.
Qed.

Lemma iterate_empty p : sock_queue (p_sock p) = [] -> iterate p = None.
Proof.
  intros Hq. apply (recvfrom_blocks (p_sock p) BUFSIZE) in Hq.
  unfold iterate, loop_body, mbind, recvfrom. by rewrite Hq.
Qed.

Lemma iterate_cons p dg q : sock_queue (p_sock p) = dg :: q ->
  exists s', sock_queue s' = q /\ sock_sent s' = sock_sent (p_sock p) /\
    sock_local s' = sock_local (p_sock p) /\ sock_route s' = sock_route (p_sock p) /\
    iterate p = Some (finish (handle (firstn BUFSIZE (dg_payload dg))
                                    (inet_ntop4 (ep_addr (dg_src dg))) (ep_port (dg_src dg))
                                    (set_sock p s'))).
Proof.
  intros Hq. destruct (recvfrom_head (p_sock p) BUFSIZE dg q Hq) as (s' & Hr & ? & ? & ? & ?).
  exists s'. repeat split; try done.
  unfold iterate, loop_body, mbind at 1, recvfrom. rewrite Hr. cbn.
  pose proof (handle_never_blocks (firstn BUFSIZE (dg_payload dg)) (inet_ntop4 (ep_addr (dg_src dg)))
                (ep_port (dg_src dg)) (set_sock p s')) as Hnb.
  destruct (handle _ _ _ _) as [? [|?|]]; [done|done|]. by contradict Hnb.
Qed.

(** The reply line 41 sends for a datagram, from the bound endpoint [me]. *)
Definition reply_to (me : endpoint) (g : globals) (dg : datagram) : datagram :=
  mk_dgram me (dg_src dg) (MSG_TX_BYTES g).

Lemma MSG_TX_BYTES_fits g : module_globals = inr g ->
  (MAX_UDP_PAYLOAD <? Z.of_nat (length (MSG_TX_BYTES g))) = false.
Proof. intros Hg. vm_compute in Hg. by injection Hg as <-. Qed.

(** The lines one pass prints for a datagram (lines 31-42), given the
    routes of the host: nothing when the payload does not decode. *)
Definition pass_lines (route : Z -> bool) (dg : datagram) : list pystr :=
  match Utf8.decode (firstn BUFSIZE (dg_payload dg)) with
  | inl _ => []
  | inr data =>
      received_lines data (inet_ntop4 (ep_addr (dg_src dg))) (ep_port (dg_src dg)) ++
      if bool_decide (data = MSG_EXP) then
        print_line [PStr (lit "Sending Reply...")] ::
        (if route (ep_addr (dg_src dg)) then [print_line [PStr (lit "Sent!")]] else [])
      else [print_line [PStr (lit "Message text was not as expected.")]]
  end.

(** What one pass of the loop does with the oldest queued datagram, on
    every branch of lines 27-42. *)
Lemma iterate_spec p dg q me :
  module_globals = inr (p_globals p) ->
  sock_queue (p_sock p) = dg :: q -> sock_local (p_sock p) = Some me -> dg_ok dg = true ->
  exists p', iterate p = Some p' /\ p_globals p' = p_globals p /\
    sock_queue (p_sock p') = q /\ sock_local (p_sock p') = Some me /\
    sock_route (p_sock p') = sock_route (p_sock p) /\
    p_stdout p' = p_stdout p ++ pass_lines (sock_route (p_sock p)) dg /\
    match Utf8.decode (firstn BUFSIZE (dg_payload dg)) with
    | inl e => p_status p' = Crashed e /\ sock_sent (p_sock p') = sock_sent (p_sock p)
    | inr data =>
        if bool_decide (data = MSG_EXP) then
          if sock_route (p_sock p) (ep_addr (dg_src dg)) then
            p_status p' = p_status p /\
            sock_sent (p_sock p') = sock_sent (p_sock p) ++ [reply_to me (p_globals p) dg]
          else p_status p' = Crashed (OSError ENETUNREACH) /\ sock_sent (p_sock p') = sock_sent (p_sock p)
        else p_status p' = p_status p /\ sock_sent (p_sock p') = sock_sent (p_sock p)
    end.
Proof.
  intros Hg Hq Hme Hdg. unfold dg_ok in Hdg. apply andb_true_iff in Hdg as [Hok Hep].
  pose proof (inet_ntop4_scalar (ep_addr (dg_src dg))) as Hip.
  destruct (iterate_cons p dg q Hq) as (s' & Hq' & Hs' & Hl' & Hr' & ->).
  eexists; split; [reflexivity|]. rewrite Hme in Hl'. unfold pass_lines.
  destruct (Utf8.decode (firstn BUFSIZE (dg_payload dg))) as [e|data] eqn:Hd.
  { rewrite (handle_decode_error _ _ _ _ e) by done. cbn. by rewrite app_nil_r. }
  assert (Hdata : forallb Utf8.scalar_ok data = true)
    by (apply (Utf8.decode_from_scalars 0 (firstn BUFSIZE (dg_payload dg))); [auto with pyudp|exact Hd]).
  destruct (decide (data = MSG_EXP)) as [->|Hne].
  - rewrite !bool_decide_true, handle_match by done. cbn -[print_line inet_ntop4].
    pose proof (sendto_endpoint s' me (MSG_TX_BYTES (p_globals p)) (dg_src dg) Hl' Hep) as Hsend.
    rewrite MSG_TX_BYTES_fits in Hsend by done. rewrite Hr' in Hsend.
    destruct (sock_route (p_sock p) (ep_addr (dg_src dg))); cbn [negb] in Hsend.
    + destruct Hsend as (s'' & -> & Hsent & Hq'' & Hl'' & Hr''). cbn -[print_line inet_ntop4].
      rewrite Hsent, Hs', Hq'', Hl'', Hr'', <- ?app_assoc. by repeat split.
    + rewrite Hsend. cbn -[print_line inet_ntop4]. rewrite <- ?app_assoc. by repeat split.
  - rewrite !bool_decide_false, (handle_other _ _ _ _ data) by done. cbn -[print_line inet_ntop4].
    rewrite <- ?app_assoc. by repeat split.
Qed.

(** The lines printed before [bind], lines 18-21. *)
Definition startup_lines : list pystr :=
  [print_line [PStr (lit "Creating socket...")]; print_line [PStr (lit "Created!")];
   print_line [PStr (lit "Binding to:"); PStr UDP_IP; PStr (lit ":"); PInt UDP_PORT]].

Lemma startup_spec s0 :
  startup s0 =
  match sock_bind s0 UDP_IP UDP_PORT with
  | inl e => mk_proc (mk_globals MSG_EXP MSG_TX) s0 startup_lines (Crashed e)
  | inr s' => mk_proc (mk_globals MSG_EXP MSG_TX) s' (startup_lines ++ [print_line [PStr (lit "Bound!")]]) Running
  end.
Proof.
  unfold startup. rewrite module_globals_value. unfold startup_body. cbn [finish]. run_prints.
  rewrite mbind_bind, !p_sock_add_lines. cbn [p_sock].
  destruct (sock_bind s0 UDP_IP UDP_PORT) as [e|s']; cbv beta; [reflexivity|].
  rewrite print_ok by print_side. reflexivity.
Qed.

Lemma UDP_IP_ntop : UDP_IP = inet_ntop4 (ep_addr SERVER_EP).
Proof. reflexivity. Qed.

(** The whole script (lines 12-42), given what [socket()] did on line 19:
    when it raised ([OSError] such as [EMFILE]), the script died with
    ["Creating socket..."] printed and no socket; otherwise it continues
    from the socket it returned. *)
Inductive script_state := NoSocket (out : list pystr) (e : PyExc) | Started (p : proc).

Definition script (created : res Sock) : script_state :=
  match module_globals with
  | inl e => NoSocket [] e
  | inr _ =>
      match created with
      | inl e => NoSocket [print_line [PStr (lit "Creating socket...")]] e
      | inr s0 => Started (startup s0)
      end
  end.

(** A successful [bind] starts the loop with the socket bound at
    10.0.0.1:44444 and nothing received or sent yet. *)
Lemma startup_ok s0 s' : sock_bind s0 UDP_IP UDP_PORT = inr s' ->
  startup s0 = mk_proc (mk_globals MSG_EXP MSG_TX) s' (startup_lines ++ [print_line [PStr (lit "Bound!")]]) Running /\
  sock_local s' = Some SERVER_EP /\ sock_queue s' = sock_queue s0 /\ sock_sent s' = sock_sent s0.
Proof.
  intros Hb. rewrite startup_spec, Hb. split; [done|].
  rewrite UDP_IP_ntop in Hb. apply bind_endpoint in Hb as (? & ? & ? & _); [done|reflexivity|done].
Qed.

(** C6: The start of the script (lines 12-24): the constants encode, the
    three lines before [bind] are printed, and then either [bind] fails
    and the process dies of its error with its socket untouched, or the
    socket is bound at 10.0.0.1:44444 with nothing received or sent,
    ["Bound!"] is printed and the loop starts. *)
Theorem startup_result s0 :
  p_globals (startup s0) = mk_globals MSG_EXP MSG_TX /\
  match sock_bind s0 UDP_IP UDP_PORT with
  | inl e => p_status (startup s0) = Crashed e /\ p_sock (startup s0) = s0 /\ p_stdout (startup s0) = startup_lines
  | inr _ => p_status (startup s0) = Running /\ sock_local (p_sock (startup s0)) = Some SERVER_EP /\
      sock_queue (p_sock (startup s0)) = sock_queue s0 /\ sock_sent (p_sock (startup s0)) = sock_sent s0 /\
      p_stdout (startup s0) = startup_lines ++ [print_line [PStr (lit "Bound!")]]
  end.
Proof.
  destruct (sock_bind s0 UDP_IP UDP_PORT) as [e|s'] eqn:Hb.
  - rewrite startup_spec, Hb. done.
  - by destruct (startup_ok s0 s' Hb) as (-> & ? & ? & ?).
Qed.

(** C9: What one pass of the loop prints (lines 31-42): nothing when the
    first 256 bytes do not decode, else the four lines of lines 31-34
    with the text and the sender, then ["Message text was not as
    expected."] for another text, or ["Sending Reply..."] for the expected
    one, followed by ["Sent!"] only when [sendto] succeeded. *)
Theorem loop_pass_output p dg q me :
  module_globals = inr (p_globals p) -> sock_queue (p_sock p) = dg :: q ->
  sock_local (p_sock p) = Some me -> dg_ok dg = true ->
  exists p', iterate p = Some p' /\ p_stdout p' = p_stdout p ++ pass_lines (sock_route (p_sock p)) dg.
Proof.
  intros Hg Hq Hme Hep.
  destruct (iterate_spec p dg q me Hg Hq Hme Hep) as (p' & Hit & _ & _ & _ & _ & Hout & _). by exists p'.
Qed.

(** C5: [recvfrom(256)] cuts a longer datagram, and line 29 decodes only
    the first 256 bytes: a datagram of valid UTF-8 text whose 256th byte
    falls inside the encoding of a character kills the server with a
    [UnicodeDecodeError] at that character, and nothing is sent. *)
Theorem truncated_text_crashes p dg q me pre s c b rest :
  module_globals = inr (p_globals p) -> sock_queue (p_sock p) = dg :: q ->
  sock_local (p_sock p) = Some me -> dg_ok dg = true ->
  dg_payload dg = pre ++ b ++ rest -> bytes_ok pre = true -> Utf8.decode pre = inr s ->
  Utf8.scalar_ok c = true -> Utf8.encode_char c = Some b ->
  (length pre < BUFSIZE < length pre + length b)%nat ->
  exists p', iterate p = Some p' /\
    p_status p' = Crashed (UnicodeDecodeError (length pre) BUFSIZE UnexpectedEndOfData) /\
    sock_sent (p_sock p') = sock_sent (p_sock p).
Proof.
  intros Hg Hq Hme Hep Hpl Hok Hd Hc Hb Hlen.
  destruct (iterate_spec p dg q me Hg Hq Hme Hep) as (p' & Hit & _ & _ & _ & _ & _ & Hcase).
  assert (Hcut : firstn BUFSIZE (dg_payload dg) = pre ++ firstn (BUFSIZE - length pre) b).
  { rewrite Hpl, !firstn_app, (firstn_all2 pre) by lia.
    replace (BUFSIZE - length pre - length b)%nat with 0%nat by lia. by rewrite app_nil_r. }
  rewrite Hcut, (Utf8.decode_cut pre s c b) in Hcase by (done || lia).
  exists p'. destruct Hcase as [Hst Hs]. split; [done|]. rewrite Hst. split; [|done].
  do 2 f_equal. lia.
Qed.

(** ** The contract of the spec, and the loop's refinement of it *)

(** The responder of the spec (4.1, 7, 8), on the datagrams in the order
    they are received: reply to the sender of each datagram whose payload
    is exactly [MSG_EXP_BYTES]; stop with the decoding error at the first
    one that does not decode as text. *)
Fixpoint responder (g : globals) (me : endpoint) (q : list datagram) : list datagram * option PyExc :=
  match q with
  | [] => ([], None)
  | dg :: q' =>
      match Utf8.decode (firstn BUFSIZE (dg_payload dg)) with
      | inl e => ([], Some e)
      | inr _ =>
          let '(out, r) := responder g me q' in
          ((if bool_decide (dg_payload dg = MSG_EXP_BYTES g) then [reply_to me g dg] else []) ++ out, r)
      end
  end.

Definition status_of (r : option PyExc) : status :=
  match r with
  | None => Running
  | Some e => Crashed e
  end.

Lemma serve_crashed n p e : p_status p = Crashed e -> serve n p = p.
Proof. intros Hs. destruct n; simpl; [done|]. by rewrite Hs. Qed.

Lemma serve_blocked n p : sock_queue (p_sock p) = [] -> serve n p = p.
Proof. intros Hq. destruct n; simpl; [done|]. rewrite iterate_empty by done. by destruct (p_status p). Qed.

(** C2: Serving a queue of well-formed datagrams, with routes to their
    senders and one pass more than there are datagrams, sends exactly the
    replies of the contract and ends as it says: blocked in [recvfrom]
    with nothing left, or dead of the decoding error. *)
Theorem serve_refines_responder n p q me :
  p_status p = Running -> module_globals = inr (p_globals p) ->
  sock_queue (p_sock p) = q -> sock_local (p_sock p) = Some me ->
  Forall (fun dg => dg_ok dg = true /\ sock_route (p_sock p) (ep_addr (dg_src dg)) = true) q ->
  (length q < n)%nat ->
  sock_sent (p_sock (serve n p)) = sock_sent (p_sock p) ++ fst (responder (p_globals p) me q) /\
  p_status (serve n p) = status_of (snd (responder (p_globals p) me q)).
Proof.
  revert n p. induction q as [|dg q IH]; intros n p Hrun Hg Hq Hme Hall Hn.
  { rewrite serve_blocked by done. rewrite app_nil_r. by rewrite Hrun. }
  destruct n as [|n]; [simpl in Hn; lia|].
  inversion_clear Hall as [|? ? [Hok Hroute] Hall']. rename Hall' into Hall. unfold dg_ok in Hok. bool_to_prop.
  destruct (iterate_spec p dg q me Hg Hq Hme (dg_ok_intro dg ltac:(done) ltac:(done)))
    as (p' & Hit & Hg' & Hq' & Hme' & Hr' & _ & Hcase).
  cbn [serve responder]. rewrite Hrun, Hit.
  destruct (Utf8.decode (firstn BUFSIZE (dg_payload dg))) as [e|data] eqn:Hd.
  { destruct Hcase as [Hst Hsent]. rewrite serve_crashed with (e := e) by done. cbn. by rewrite Hsent, app_nil_r. }
  assert (Hmatch := text_match_iff_bytes (p_globals p) (dg_payload dg) data Hg ltac:(done) Hd).
  rewrite Hroute in Hcase.
  destruct (decide (data = MSG_EXP)) as [Heq|Hne].
  - rewrite bool_decide_true in Hcase by done. destruct Hcase as [Hst' Hsent].
    rewrite Hrun in Hst'.
    assert (Hall' : Forall (fun dg => dg_ok dg = true /\ sock_route (p_sock p') (ep_addr (dg_src dg)) = true) q).
    { eapply Forall_impl; [|exact Hall]. intros dg' [? ?]. by rewrite Hr'. }
    destruct (IH n p' Hst' ltac:(by rewrite Hg') Hq' Hme' Hall' ltac:(simpl in Hn; lia)) as [IHsent IHst].
    rewrite Hg' in IHsent, IHst. rewrite (bool_decide_true (dg_payload dg = _)) by (by apply Hmatch).
    destruct (responder (p_globals p) me q) as [out r]. cbn [fst snd] in *.
    rewrite IHsent, IHst, Hsent. by rewrite <- app_assoc.
  - rewrite bool_decide_false in Hcase by done. destruct Hcase as [Hst' Hsent].
    rewrite Hrun in Hst'.
    assert (Hall' : Forall (fun dg => dg_ok dg = true /\ sock_route (p_sock p') (ep_addr (dg_src dg)) = true) q).
    { eapply Forall_impl; [|exact Hall]. intros dg' [? ?]. by rewrite Hr'. }
    destruct (IH n p' Hst' ltac:(by rewrite Hg') Hq' Hme' Hall' ltac:(simpl in Hn; lia)) as [IHsent IHst].
    rewrite Hg' in IHsent, IHst. rewrite (bool_decide_false (dg_payload dg = _)) by (by rewrite <- Hmatch).
    destruct (responder (p_globals p) me q) as [out r]. cbn [fst snd] in *.
    by rewrite IHsent, IHst, Hsent.
Qed.

(** ** Invariants of the process *)

Lemma reachable_run p0 p : reachable p0 p -> exists h, run p0 h p.
Proof.
  induction 1 as [|p p' _ [h Hh] Hs]; [exists []; constructor|].
  destruct Hs as [p p' Hrun Hit|p dg Hrun Hok].
  - destruct (sock_queue (p_sock p)) as [|dg q] eqn:Hq.
    + by rewrite iterate_empty in Hit.
    + exists (h ++ [dg]). by eapply run_loop.
  - exists h. by apply run_deliver.
Qed.

(** The replies owed for the datagrams [h], in order. *)
Definition replies (g : globals) (me : endpoint) (h : list datagram) : list datagram :=
  flat_map (fun dg => if bool_decide (dg_payload dg = MSG_EXP_BYTES g) then [reply_to me g dg] else []) h.

Lemma replies_snoc g me h dg :
  replies g me (h ++ [dg]) =
  replies g me h ++ (if bool_decide (dg_payload dg = MSG_EXP_BYTES g) then [reply_to me g dg] else []).
Proof. unfold replies. rewrite flat_map_app. simpl. by rewrite app_nil_r. Qed.

Lemma replies_length g me h : (length (replies g me h) <= length h)%nat.
Proof.
  induction h as [|dg h IH]; [done|]. unfold replies in *. cbn [flat_map].
  rewrite length_app. case_bool_decide; simpl; lia.
Qed.

Lemma replies_elem g me h r : r ∈ replies g me h ->
  exists dg, dg ∈ h /\ dg_payload dg = MSG_EXP_BYTES g /\ r = reply_to me g dg.
Proof.
  induction h as [|dg h IH]; intros Hr; [by apply elem_of_nil in Hr|].
  unfold replies in Hr, IH. cbn [flat_map] in Hr. apply elem_of_app in Hr as [Hr|Hr].
  - case_bool_decide; [|by apply elem_of_nil in Hr]. apply list_elem_of_singleton in Hr.
    exists dg. split; [apply elem_of_cons; by left|done].
  - destruct (IH Hr) as (dg' & ? & ?). exists dg'. split; [apply elem_of_cons; by right|done].
Qed.

(** What no step changes: the globals, the bound endpoint, the routes,
    and that the queue holds well-formed datagrams. *)
Definition run_inv (p0 p : proc) (me : endpoint) : Prop :=
  p_globals p = p_globals p0 /\ sock_local (p_sock p) = Some me /\
  sock_route (p_sock p) = sock_route (p_sock p0) /\ Forall (fun dg => dg_ok dg = true) (sock_queue (p_sock p)).

Section Runs.

Variables (p0 : proc) (me : endpoint).
Hypothesis Hme0 : sock_local (p_sock p0) = Some me.
Hypothesis Hg0 : module_globals = inr (p_globals p0).
Hypothesis Hq0 : Forall (fun dg => dg_ok dg = true) (sock_queue (p_sock p0)).

Lemma run_inv_holds h p : run p0 h p -> run_inv p0 p me.
Proof.
  induction 1 as [|h p dg q p' _ IH Hrun Hq Hit|h p dg _ IH Hrun Hok].
  - done.
  - destruct IH as (Hg & Hme & Hr & Hall). rewrite Hq in Hall. inversion_clear Hall as [|? ? Hdg Hall'].
    destruct (iterate_spec p dg q me ltac:(by rewrite Hg) Hq Hme Hdg)
      as (p'' & Hit' & Hg' & Hq' & Hme' & Hr' & _ & _).
    rewrite Hit in Hit'. injection Hit' as ->. unfold run_inv. rewrite Hq'. repeat split; congruence || done.
  - destruct IH as (Hg & Hme & Hr & Hall).
    destruct (deliver_spec (p_sock p) dg ltac:(by rewrite Hme)) as (Hq' & _ & Hl' & Hr').
    unfold run_inv, set_sock. cbn [p_globals p_sock]. rewrite Hq', Hl', Hr', Hme. repeat split; try done.
    destruct (accepts _ _ && _); [|done]. apply Forall_app. split; [done|]. by constructor.
Qed.

(** Why the process died on the datagram [dg]: the first [BUFSIZE] bytes
    are not UTF-8 (line 29), or the payload was the expected one and there
    is no route back to its sender (line 41). *)
Definition crash_cause (dg : datagram) (e : PyExc) : Prop :=
  Utf8.decode (firstn BUFSIZE (dg_payload dg)) = inl e \/
  (e = OSError ENETUNREACH /\ dg_payload dg = MSG_EXP_BYTES (p_globals p0) /\
   sock_route (p_sock p0) (ep_addr (dg_src dg)) = false).

Hypothesis Hrun0 : p_status p0 = Running.

Lemma run_history h p : run p0 h p ->
  match p_status p with
  | Running => sock_sent (p_sock p) = sock_sent (p_sock p0) ++ replies (p_globals p0) me h
  | Crashed e => exists h' dg, h = h' ++ [dg] /\
      sock_sent (p_sock p) = sock_sent (p_sock p0) ++ replies (p_globals p0) me h' /\ crash_cause dg e
  end.
Proof.
  induction 1 as [|h p dg q p' Hr IH Hrun Hq Hit|h p dg Hr IH Hrun Hok].
  - rewrite Hrun0. by rewrite app_nil_r.
  - rewrite Hrun in IH. destruct (run_inv_holds h p Hr) as (Hg & Hme & Hrt & Hall).
    rewrite Hq in Hall. inversion_clear Hall as [|? ? Hdg _].
    unfold dg_ok in Hdg. bool_to_prop.
    destruct (iterate_spec p dg q me ltac:(by rewrite Hg) Hq Hme (dg_ok_intro dg ltac:(done) ltac:(done)))
      as (p'' & Hit' & _ & _ & _ & _ & _ & Hcase).
    rewrite Hit in Hit'. injection Hit' as ->.
    destruct (Utf8.decode (firstn BUFSIZE (dg_payload dg))) as [e|data] eqn:Hd.
    { destruct Hcase as [-> ->]. exists h, dg. repeat split; [done|]. by left. }
    pose proof (text_match_iff_bytes (p_globals p) (dg_payload dg) data ltac:(by rewrite Hg) ltac:(done) Hd) as Hm.
    rewrite Hg in Hm. rewrite replies_snoc, app_assoc, <- IH.
    destruct (decide (data = MSG_EXP)) as [Heq|Hne].
    + rewrite bool_decide_true in Hcase by done. rewrite bool_decide_true by (by apply Hm).
      destruct (sock_route (p_sock p) (ep_addr (dg_src dg))) eqn:Hroute; destruct Hcase as [-> Hsent].
      * rewrite Hrun, Hsent. by rewrite Hg.
      * exists h, dg. rewrite Hsent, <- IH. split; [done|]; split; [done|]. right. rewrite <- Hrt. split; [done|split; [by apply Hm|done]].
    + rewrite bool_decide_false in Hcase by done. rewrite bool_decide_false by (by rewrite <- Hm).
      destruct Hcase as [-> ->]. rewrite Hrun. by rewrite app_nil_r.
  - destruct (run_inv_holds h p Hr) as (_ & Hme & _ & _).
    destruct (deliver_spec (p_sock p) dg ltac:(by rewrite Hme)) as (_ & Hs' & _ & _).
    cbn [set_sock p_status p_sock]. rewrite Hs'. by rewrite Hrun in IH |- *.
Qed.

(** C3: In every state of a run, the socket is still bound where line 23
    bound it, the globals are unchanged, and what the server has sent is
    exactly one reply, in order, to each received datagram whose payload
    is [MSG_EXP_BYTES]: to all of them while it runs, to all but the last
    once it has died. *)
Theorem run_sent_replies h p : run p0 h p ->
  p_globals p = p_globals p0 /\ sock_local (p_sock p) = Some me /\
  sock_sent (p_sock p) = sock_sent (p_sock p0) ++
    replies (p_globals p0) me (match p_status p with Running => h | Crashed _ => removelast h end).
Proof.
  intros Hr. destruct (run_inv_holds h p Hr) as (Hg & Hme & _ & _). split; [done|split; [done|]].
  pose proof (run_history h p Hr) as Hh. destruct (p_status p); [done|].
  destruct Hh as (h' & dg & -> & Hs & _). by rewrite removelast_last.
Qed.

(** What has been sent since [p0] is one reply per matching received
    datagram at most. *)
Lemma run_sent_owed h p : run p0 h p ->
  exists out, sock_sent (p_sock p) = sock_sent (p_sock p0) ++ out /\ (length out <= length h)%nat /\
    forall r, r ∈ out -> exists dg, dg ∈ h /\ dg_payload dg = MSG_EXP_BYTES (p_globals p0) /\
      r = mk_dgram me (dg_src dg) (MSG_TX_BYTES (p_globals p0)).
Proof.
  intros Hr. pose proof (run_history h p Hr) as Hh. destruct (p_status p) as [|e].
  - exists (replies (p_globals p0) me h). split; [done|]. split; [apply replies_length|].
    intros r Hin. by apply replies_elem in Hin.
  - destruct Hh as (h' & dg & -> & Hs & _). exists (replies (p_globals p0) me h'). split; [done|].
    split; [rewrite length_app; pose proof (replies_length (p_globals p0) me h'); lia|].
    intros r Hin. apply replies_elem in Hin as (dg' & Hin & ?). exists dg'.
    split; [apply elem_of_app; by left|done].
Qed.

(** C4: A run that ends in a dead process died on the last datagram it
    received, of that datagram's failure to decode or of [ENETUNREACH]
    when replying to the expected payload without a route; nothing moves
    a dead process any more. *)
Theorem crashed_final h p e : run p0 h p -> p_status p = Crashed e ->
  (exists h' dg, h = h' ++ [dg] /\ crash_cause dg e) /\ forall p', ~ step p p'.
Proof.
  intros Hr He. pose proof (run_history h p Hr) as Hh. rewrite He in Hh.
  destruct Hh as (h' & dg & Hh & _ & Hc). split; [by exists h', dg|].
  intros p' Hs. destruct Hs; congruence.
Qed.

End Runs.

(** ** The script from its first line *)

Lemma reachable_crashed p0 p e : reachable p0 p -> p_status p0 = Crashed e -> p = p0.
Proof. induction 1 as [|p p' _ IH Hs]; intros He; [done|]. rewrite IH in Hs by done. destruct Hs; congruence. Qed.

(** After a successful [bind], the loop starts from a state where the
    invariants of its runs hold. *)
Lemma startup_ready s0 s' : sock_bind s0 UDP_IP UDP_PORT = inr s' -> sock_queue s0 = [] ->
  sock_local (p_sock (startup s0)) = Some SERVER_EP /\ module_globals = inr (p_globals (startup s0)) /\
  Forall (fun dg => dg_ok dg = true) (sock_queue (p_sock (startup s0))) /\ p_status (startup s0) = Running.
Proof.
  intros Hb Hq0. destruct (startup_ok s0 s' Hb) as (-> & Hme & Hq & _). cbn [p_sock p_globals p_status].
  rewrite Hq, Hq0. by repeat split.
Qed.

(** C1: The whole script, from the socket [socket()] returned (nothing
    queued or sent yet), among any deliveries by the network: if [bind]
    fails the process is dead and nothing ever happens; otherwise, in
    every state it reaches, the socket is bound at 10.0.0.1:44444 and
    everything it has sent is ["Hello CC3000"] from 10.0.0.1:44444 to the
    sender of a datagram it received whose payload was exactly
    ["Hello World from CC3000"], never more replies than datagrams. *)
Theorem script_safety s0 p : sock_queue s0 = [] -> sock_sent s0 = [] -> reachable (startup s0) p ->
  match sock_bind s0 UDP_IP UDP_PORT with
  | inl e => p = startup s0 /\ p_status p = Crashed e
  | inr _ => sock_local (p_sock p) = Some SERVER_EP /\
      exists h, run (startup s0) h p /\ (length (sock_sent (p_sock p)) <= length h)%nat /\
        forall r, r ∈ sock_sent (p_sock p) ->
          exists dg, dg ∈ h /\ dg_payload dg = MSG_EXP /\ r = mk_dgram SERVER_EP (dg_src dg) MSG_TX
  end.
Proof.
  intros Hq0 Hs0 Hr. destruct (sock_bind s0 UDP_IP UDP_PORT) as [e|s'] eqn:Hb.
  - assert (He : p_status (startup s0) = Crashed e) by (rewrite startup_spec, Hb; done).
    rewrite (reachable_crashed _ _ e Hr He). by split.
  - destruct (startup_ok s0 s' Hb) as (Hst & _ & _ & Hs).
    destruct (startup_ready s0 s' Hb Hq0) as (Hme0 & Hg0 & Hq0' & Hrun0).
    apply reachable_run in Hr as [h Hr].
    destruct (run_inv_holds _ _ Hme0 Hg0 Hq0' h p Hr) as (_ & Hme' & _ & _).
    destruct (run_sent_owed _ _ Hme0 Hg0 Hq0' Hrun0 h p Hr) as (out & Hsent & Hlen & Hall).
    rewrite Hst in Hsent, Hall. cbn [p_sock p_globals MSG_EXP_BYTES MSG_TX_BYTES] in Hsent, Hall.
    rewrite Hs, Hs0 in Hsent. cbn [app] in Hsent.
    split; [done|]. exists h. rewrite Hsent. by split; [|split].
Qed.

(** ** Draining the queue *)

Lemma iterate_queue p p' me : module_globals = inr (p_globals p) -> sock_local (p_sock p) = Some me ->
  Forall (fun dg => dg_ok dg = true) (sock_queue (p_sock p)) -> iterate p = Some p' ->
  exists dg, sock_queue (p_sock p) = dg :: sock_queue (p_sock p') /\ p_globals p' = p_globals p /\
    sock_local (p_sock p') = Some me /\ Forall (fun dg => dg_ok dg = true) (sock_queue (p_sock p')).
Proof.
  intros Hg Hme Hall Hit. destruct (sock_queue (p_sock p)) as [|dg q] eqn:Hq; [by rewrite iterate_empty in Hit|].
  inversion_clear Hall as [|? ? Hdg Hall']. unfold dg_ok in Hdg. bool_to_prop.
  destruct (iterate_spec p dg q me Hg Hq Hme (dg_ok_intro dg ltac:(done) ltac:(done))) as (p'' & Hit' & Hg' & Hq' & Hme' & _).
  rewrite Hit in Hit'. injection Hit' as <-. exists dg. by rewrite Hq'.
Qed.

Lemma serve_S f p : serve (S f) p =
  match p_status p with Crashed _ => p | Running => match iterate p with None => p | Some p' => serve f p' end end.
Proof. reflexivity. Qed.

(** C8: One pass more than there are queued datagrams is enough fuel:
    [serve] then ends blocked on an empty queue or dead, and any more
    fuel gives the same process. *)
Theorem serve_drains n p me : p_status p = Running -> module_globals = inr (p_globals p) ->
  sock_local (p_sock p) = Some me -> Forall (fun dg => dg_ok dg = true) (sock_queue (p_sock p)) ->
  (length (sock_queue (p_sock p)) < n)%nat ->
  (sock_queue (p_sock (serve n p)) = [] \/ exists e, p_status (serve n p) = Crashed e) /\
  forall m, (n <= m)%nat -> serve m p = serve n p.
Proof.
  remember (length (sock_queue (p_sock p))) as k eqn:Hk. revert n p Hk.
  induction k as [|k IH]; intros n p Hk Hrun Hg Hme Hall Hn.
  - symmetry in Hk. apply length_zero_iff_nil in Hk.
    split; [left; by rewrite serve_blocked|intros m _; by rewrite !serve_blocked].
  - destruct n as [|n]; [lia|].
    destruct (sock_queue (p_sock p)) as [|dg q] eqn:Hq; [done|].
    destruct (iterate p) as [p'|] eqn:Hit;
      [|destruct (iterate_cons p dg q Hq) as (? & _ & _ & _ & _ & ?); congruence].
    destruct (iterate_queue p p' me Hg Hme ltac:(by rewrite Hq) Hit) as (dg' & Hq' & Hg' & Hme' & Hall').
    rewrite Hq in Hq'. injection Hq' as _ Hq'. simpl in Hk. rewrite Hq' in Hk.
    assert (Hstep : forall f, serve (S f) p = serve f p') by (intros f; by rewrite serve_S, Hrun, Hit).
    rewrite Hstep. destruct (p_status p') as [|e] eqn:Hst'.
    + destruct (IH n p' ltac:(lia) Hst' ltac:(by rewrite Hg') Hme' Hall' ltac:(lia))
        as [Hfin Hstab].
      split; [done|]. intros [|m] Hm; [lia|]. rewrite Hstep. apply Hstab. lia.
    + rewrite serve_crashed with (e := e) by done. split; [by right; exists e|].
      intros [|m] Hm; [lia|]. rewrite Hstep. by apply serve_crashed with (e := e).
Qed.

End Process.

Arguments proc Sock : clear implicits.

(** ** Startup on a kernel host *)

(** C7: On the kernel model, the script started on a host [e] dies of
    [OSError(EADDRNOTAVAIL)] when 10.0.0.1 is not one of the host's
    addresses, else of [OSError(EADDRINUSE)] when another socket holds UDP
    port 44444, and otherwise enters the loop; port 44444 is not
    privileged, so [EACCES] never happens. *)
Theorem startup_on_host e :
  p_status (startup (socket e)) =
    if negb (existsb (Z.eqb (ep_addr SERVER_EP)) (local_addrs e)) then Crashed (OSError EADDRNOTAVAIL)
    else if existsb (Z.eqb UDP_PORT) (ports_in_use e) then Crashed (OSError EADDRINUSE)
    else Running.
Proof.
  rewrite startup_spec. change (sock_bind (socket e) UDP_IP UDP_PORT) with (Socket.bind (socket e) UDP_IP UDP_PORT).
  unfold Socket.bind. rewrite UDP_IP_ntop. change UDP_PORT with (ep_port SERVER_EP).
  rewrite getsockaddrarg_ntop by reflexivity. autorewrite with pyudp_rw. cbn [ep_addr ep_port SERVER_EP socket env local].
  destruct (existsb _ (local_addrs e)), (existsb _ (ports_in_use e)); reflexivity.
Qed.

(** ** A concrete host

    The witnesses run the script on the kernel model: a host with the
    address 10.0.0.1, a route everywhere, a receive buffer that holds
    eight datagrams, and a client at 10.0.0.2:5000. *)

Definition lab_env : netenv :=
  mk_netenv [0x0A000001] [] false 50000 (fun _ => true) (fun q _ => Nat.ltb (length q) 8) (fun _ => None).
Definition CLIENT_EP : endpoint := mk_endpoint 0x0A000002 5000.
Definition from_client (pl : bytes) : datagram := mk_dgram CLIENT_EP SERVER_EP pl.
Definition p_init : proc udp_sock := startup (socket lab_env).
Definition deliver_to (p : proc udp_sock) (dg : datagram) : proc udp_sock :=
  set_sock p (sock_deliver (p_sock p) dg).
Definition pass (p : proc udp_sock) : proc udp_sock :=
  match iterate p with Some p' => p' | None => p end.

Definition dg_hello : datagram := from_client MSG_EXP.
Definition dg_bad : datagram := from_client [0xFF].
(** 255 ASCII bytes and an [é]: valid text of 257 bytes. *)
Definition dg_long : datagram := from_client (repeat 0x41 255 ++ [0xC3; 0xA9]).

Definition p_hello : proc udp_sock := deliver_to p_init dg_hello.
Definition p_replied : proc udp_sock := pass p_hello.
Definition p_crashed : proc udp_sock := pass (deliver_to p_replied dg_bad).

Lemma run_hello : run p_init [dg_hello] p_replied.
Proof.
  apply (run_loop p_init [] p_hello dg_hello []); [|vm_compute; reflexivity..].
  apply run_deliver; [apply run_start|vm_compute; reflexivity..].
Qed.

Lemma run_crashed : run p_init [dg_hello; dg_bad] p_crashed.
Proof.
  apply (run_loop p_init [dg_hello] (deliver_to p_replied dg_bad) dg_bad []); [|vm_compute; reflexivity..].
  apply run_deliver; [apply run_hello|vm_compute; reflexivity..].
Qed.

(** Hypotheses on the concrete run: decided by evaluation of a closed
    boolean where a [Decision] instance exists, else by evaluating both
    sides. *)
Ltac eval_hyp := first [ apply (bool_decide_unpack _); vm_compute; reflexivity | vm_compute; reflexivity ].

(** The client's greeting is delivered and answered. *)
Lemma reach_replied : reachable p_init p_replied.
Proof.
  apply (reach_step _ p_hello); [apply (reach_step _ p_init); [apply reach_refl|]|].
  - apply step_deliver; eval_hyp.
  - apply step_loop; eval_hyp.
Qed.

Definition p_three : proc udp_sock :=
  deliver_to (deliver_to (deliver_to p_init dg_hello) (from_client (lit "nope"))) dg_bad.

(** Three datagrams queued: the expected one, another text and a byte
    that is not UTF-8; the server replies once and dies on the third. *)
Lemma serve_refines_responder_witness :
  sock_sent (p_sock (serve 4 p_three)) =
    sock_sent (p_sock p_three) ++ fst (responder (p_globals p_three) SERVER_EP [dg_hello; from_client (lit "nope"); dg_bad]) /\
  p_status (serve 4 p_three) =
    status_of (snd (responder (p_globals p_three) SERVER_EP [dg_hello; from_client (lit "nope"); dg_bad])).
Proof. apply (serve_refines_responder 4 p_three _ SERVER_EP); eval_hyp. Defined.

Lemma run_sent_replies_witness :
  p_globals p_replied = p_globals p_init /\ sock_local (p_sock p_replied) = Some SERVER_EP /\
  sock_sent (p_sock p_replied) = sock_sent (p_sock p_init) ++
    replies (p_globals p_init) SERVER_EP
      (match p_status p_replied with Running => [dg_hello] | Crashed _ => removelast [dg_hello] end).
Proof. apply (run_sent_replies p_init SERVER_EP); [eval_hyp..|apply run_hello]. Defined.

Lemma crashed_final_witness :
  (exists h' dg, [dg_hello; dg_bad] = h' ++ [dg] /\
     crash_cause p_init dg (UnicodeDecodeError 0 1 InvalidStartByte)) /\
  forall p', ~ step p_crashed p'.
Proof. apply (crashed_final p_init SERVER_EP); [eval_hyp..|apply run_crashed|eval_hyp]. Defined.

(** Startup on a host that owns 10.0.0.1: the bind succeeds. *)
Lemma startup_result_witness :
  p_globals (startup (socket lab_env)) = mk_globals MSG_EXP MSG_TX /\
  match sock_bind (socket lab_env) UDP_IP UDP_PORT with
  | inl e => p_status (startup (socket lab_env)) = Crashed e /\ p_sock (startup (socket lab_env)) = socket lab_env /\
      p_stdout (startup (socket lab_env)) = startup_lines
  | inr _ => p_status (startup (socket lab_env)) = Running /\
      sock_local (p_sock (startup (socket lab_env))) = Some SERVER_EP /\
      sock_queue (p_sock (startup (socket lab_env))) = sock_queue (socket lab_env) /\
      sock_sent (p_sock (startup (socket lab_env))) = sock_sent (socket lab_env) /\
      p_stdout (startup (socket lab_env)) = startup_lines ++ [print_line [PStr (lit "Bound!")]]
  end.
Proof. apply startup_result. Defined.

(** The expected message from 10.0.0.2:5000 prints the four lines, with
    the double spaces of [print("data is: ", data)] and the like, and the
    reply lines. *)
Lemma loop_pass_output_witness :
  pass_lines (sock_route (p_sock p_hello)) dg_hello =
    map (fun l => lit l ++ [10])
      ["Message Received:"; "data is:  Hello World from CC3000"; "src_ip is:  10.0.0.2";
       "src_port is:  5000"; "Sending Reply..."; "Sent!"]%string /\
  exists p', iterate p_hello = Some p' /\ p_stdout p' = p_stdout p_hello ++ pass_lines (sock_route (p_sock p_hello)) dg_hello.
Proof. split; [vm_compute; reflexivity|]. apply (loop_pass_output p_hello dg_hello [] SERVER_EP); eval_hyp. Defined.

(** The long datagram is valid text, yet the server dies on it. *)
Lemma truncated_text_crashes_witness :
  Utf8.decode (dg_payload dg_long) = inr (repeat 0x41 255 ++ [0xE9]) /\
  exists p', iterate (deliver_to p_init dg_long) = Some p' /\
    p_status p' = Crashed (UnicodeDecodeError (length (repeat 0x41 255)) BUFSIZE UnexpectedEndOfData) /\
    sock_sent (p_sock p') = sock_sent (p_sock (deliver_to p_init dg_long)).
Proof.
  split; [vm_compute; reflexivity|].
  apply (truncated_text_crashes (deliver_to p_init dg_long) dg_long [] SERVER_EP
           (repeat 0x41 255) (repeat 0x41 255) 0xE9 [0xC3; 0xA9] []); eval_hyp.
Defined.

(** The host owns 10.0.0.1 and the client's greeting was answered: the
    one datagram sent is the reply to it. *)
Lemma script_safety_witness :
  match sock_bind (socket lab_env) UDP_IP UDP_PORT with
  | inl e => p_replied = startup (socket lab_env) /\ p_status p_replied = Crashed e
  | inr _ => sock_local (p_sock p_replied) = Some SERVER_EP /\
      exists h, run (startup (socket lab_env)) h p_replied /\
        (length (sock_sent (p_sock p_replied)) <= length h)%nat /\
        forall r, r ∈ sock_sent (p_sock p_replied) ->
          exists dg, dg ∈ h /\ dg_payload dg = MSG_EXP /\ r = mk_dgram SERVER_EP (dg_src dg) MSG_TX
  end.
Proof. apply (script_safety (socket lab_env) p_replied); [reflexivity|reflexivity|apply reach_replied]. Defined.

(** Three queued datagrams drain in four passes, and more fuel changes
    nothing. *)
Lemma serve_drains_witness :
  (sock_queue (p_sock (serve 4 p_three)) = [] \/ exists e, p_status (serve 4 p_three) = Crashed e) /\
  forall m, (4 <= m)%nat -> serve m p_three = serve 4 p_three.
Proof. apply (serve_drains 4 p_three SERVER_EP); eval_hyp. Defined.

End Server.
